(** * Law of large numbers: the Bernoulli simulation of
      [law_large_numbers.py] and [law_large_numbers3.py]

    Both scripts collect a probability [p], draw one binomial count per
    sample size from a numpy generator, and record the empirical frequency
    [successes / n] together with [abs(result - p)].

    The development has four layers:
    - [Binary64]: Python floats, as the IEEE 754 binary64 instance of the
      standard library's [SpecFloat];
    - [Py]: the exceptions and the arithmetic builtins the scripts use;
    - [Numpy]: the interface of [numpy.random.Generator] the scripts call;
    - [LLN] and [LLN3]: the two scripts. *)

From Stdlib Require Import ZArith List Bool Lia QArith Qabs Qminmax.
From Stdlib Require Import SpecFloat.
From Stdlib Require String Ascii DecimalString DecimalN.
Import ListNotations.
Local Open Scope Z_scope.

(** ** Python floats *)

Module Binary64.

Definition prec : Z := 53.
Definition emax : Z := 1024.

Definition float : Type := spec_float.

(** [0.0] and [1.0]. *)
Definition fzero : float := S754_zero false.
Definition fone : float := S754_finite false 4503599627370496 (-52).

(** [0.5], the slider's initial position. *)
Definition fhalf : float := S754_finite false 4503599627370496 (-53).

(** [0.1], the slider ten steps above its lower end: the float nearest to
    one tenth, a little above it. *)
Definition ftenth : float := S754_finite false 7205759403792794 (-56).

Definition fdiv : float -> float -> float := SFdiv prec emax.
Definition fsub : float -> float -> float := SFsub prec emax.
Definition fabs : float -> float := SFabs.
Definition fle : float -> float -> bool := SFleb.
Definition flt : float -> float -> bool := SFltb.
Definition feq : float -> float -> bool := SFeqb.

(** A well-formed binary64 datum: mantissa and exponent are the canonical
    ones of the format. *)
Definition valid : float -> bool := valid_binary prec emax.

Definition is_finite (x : float) : bool :=
  match x with
  | S754_zero _ | S754_finite _ _ _ => true
  | S754_infinity _ | S754_nan => false
  end.

(** Every finite binary64 number is an integer multiple of [2^-1074];
    [ival x] is that integer. *)
Definition scale : Z := 1074.
Definition unit_den : Z := 2 ^ scale.

Definition ival (x : float) : Z :=
  match x with
  | S754_finite s m e => cond_Zopp s (Zpos m * 2 ^ (e + scale))
  | _ => 0
  end.

(** The exact rational value of a finite float. *)
Definition F2Q (x : float) : Q := Qmake (ival x) (Z.to_pos unit_den).

End Binary64.

Export Binary64.

(** ** Rounding to binary64 *)

(** The vocabulary used to reason about [binary_round_aux]: every operation
    of the scripts rounds a non-negative quantity [v * 2^-1076], given by the
    integer [v], to the nearest float, ties to even. *)
Module Rounding.

Definition emin : Z := -1074.

Definition fexp : Z -> Z := SpecFloat.fexp prec emax.

(** A truncation record with no bits shifted out yet. *)
Definition exact (m : Z) : shr_record :=
  {| shr_m := m; shr_r := false; shr_s := false |}.

(** [k] one-bit right shifts. *)
Definition shrn (k : nat) (mrs : shr_record) : shr_record :=
  Nat.iter k shr_1 mrs.

(** A record read as one integer: the kept mantissa followed by the round
    and sticky bits. *)
Definition code (mrs : shr_record) : Z :=
  4 * shr_m mrs + 2 * Z.b2z (shr_r mrs) + Z.b2z (shr_s mrs).

Definition loc_code (l : location) : Z :=
  match l with
  | loc_Exact => 0
  | loc_Inexact Lt => 1
  | loc_Inexact Eq => 2
  | loc_Inexact Gt => 3
  end.

(** The mantissa after rounding a record to nearest, ties to even. *)
Definition rne (mrs : shr_record) : Z :=
  round_nearest_even (shr_m mrs) (loc_of_shr_record mrs).

(** The number of low bits of [v] that do not fit the format. *)
Definition width (v : Z) : Z := Z.max (Zdigits2 v - prec) 2.

(** [v * 2^-1076] rounded to binary64, as a float and as an integer
    multiple of [2^-1076]. *)
Definition rnd (v : Z) : float :=
  binary_round_aux prec emax false v (emin - 2) loc_Exact.

Definition rval (v : Z) : Z :=
  rne (shrn (Z.to_nat (width v)) (exact v)) * 2 ^ width v.

(** A float that is zero or positive, finite and well formed. *)
Definition nonneg (x : float) : bool :=
  match x with
  | S754_zero _ => true
  | S754_finite false m e => valid x
  | _ => false
  end.

End Rounding.

Export Rounding.

(** ** Python builtins *)

Module Py.

Inductive exn : Type :=
| ValueError
| OverflowError
| ZeroDivisionError.

(** A computation either raises or returns. *)
Definition py (A : Type) : Type := (exn + A)%type.

Definition ret {A} (a : A) : py A := inr a.
Definition raise {A} (e : exn) : py A := inl e.
Definition bind {A B} (c : py A) (k : A -> py B) : py B :=
  match c with
  | inl e => inl e
  | inr a => k a
  end.

(** Whether a computation ended in [ZeroDivisionError]. *)
Definition zero_division {A} (c : py A) : bool :=
  match c with
  | inl ZeroDivisionError => true
  | _ => false
  end.

(** An [int] as an exact, not normalised, mantissa with exponent 0. *)
Definition int_as_float (a : Z) : float :=
  match a with
  | Z0 => S754_zero false
  | Zpos m => S754_finite false m 0
  | Zneg m => S754_finite true m 0
  end.

(** [a / b] on two [int]s: the correctly rounded quotient, and
    [ZeroDivisionError] for a zero divisor. *)
Definition int_truediv (a b : Z) : py float :=
  if b =? 0 then raise ZeroDivisionError
  else ret (fdiv (int_as_float a) (int_as_float b)).

(** [max(a, b)]: the first argument unless the second is greater. *)
Definition max (a b : float) : float := if flt a b then b else a.

End Py.

Export Py.

Declare Scope py_scope.
Delimit Scope py_scope with py.
Notation "x <- c ;; k" := (bind c (fun x => k))
  (at level 61, c at next level, right associativity) : py_scope.
Notation "' pat <- c ;; k" := (bind c (fun x => match x with pat => k end))
  (at level 61, pat pattern, c at next level, right associativity) : py_scope.

(** ** numpy.random *)

Module Numpy.

(** What the scripts use of a [numpy.random.Generator]: a bit generator
    state obtained from seed material, and the scalar binomial sampler that
    consumes it. *)
Class Generator : Type := {
  bitgen : Type;
  seed_bitgen : Z -> bitgen;
  random_binomial : bitgen -> Z -> float -> Z * bitgen
}.

Section WithGenerator.
Context {G : Generator}.

(** [np.random.default_rng(seed)]: with no seed the state comes from the
    operating system's entropy; a negative seed is rejected. *)
Definition default_rng (seed : option Z) (os_entropy : N) : py bitgen :=
  match seed with
  | None => ret (seed_bitgen (Z.of_N os_entropy))
  | Some s => if s <? 0 then raise ValueError else ret (seed_bitgen s)
  end.

(** [rng.binomial(n=n, p=p)] on scalars: [n] is read as a 64-bit
    integer, [p] must lie in [0, 1] and [n] must not be negative. *)
Definition binomial (rng : bitgen) (n : Z) (p : float) : py (Z * bitgen) :=
  if negb ((- 2 ^ 63 <=? n) && (n <? 2 ^ 63)) then raise OverflowError
  else if negb (fle fzero p && fle p fone) then raise ValueError
  else if n <? 0 then raise ValueError
  else ret (random_binomial rng n p).

End WithGenerator.

(** *** The binomial distribution *)

Fixpoint choose (n k : nat) : Z :=
  match n, k with
  | _, O => 1
  | O, S _ => 0
  | S n', S k' => choose n' k' + choose n' k
  end.

(** The probability mass of [k] successes among [n] trials, over the
    common denominator [unit_den ^ n]:
    [C(n,k) * p^k * (1-p)^(n-k) * unit_den^n]. *)
Definition binomial_weight (n : Z) (p : float) (k : Z) : Z :=
  if (0 <=? k) && (k <=? n)
  then choose (Z.to_nat n) (Z.to_nat k)
       * ival p ^ k * (unit_den - ival p) ^ (n - k)
  else 0.

Definition in_support (n : Z) (p : float) (k : Z) : Prop :=
  0 < binomial_weight n p k.

(** A probability as the slider hands it over: a well-formed float
    between [0.0] and [1.0]. *)
Definition valid_p (p : float) : bool :=
  valid p && fle fzero p && fle p fone.

(** The arguments [binomial] accepts. *)
Definition admissible (n : Z) (p : float) : bool :=
  (0 <=? n) && (n <? 2 ^ 63) && fle fzero p && fle p fone.

(** The sampler's contract: on admissible arguments a draw has positive
    probability under Binomial(n, p). *)
Definition lawful (G : Generator) : Prop :=
  forall (rng : bitgen) (n : Z) (p : float),
    valid_p p = true -> 0 <= n ->
    in_support n p (fst (random_binomial rng n p)).

End Numpy.

Export Numpy.

(** ** The rows both scripts build *)

(** The dict [{"n": n, "result": result, "|result - p|": abs_diff}]. *)
Record row : Type := {
  row_n : Z;
  row_result : float;
  row_abs_diff : float
}.

(** The local variables one loop iteration assigns. *)
Record locals : Type := {
  successes : Z;
  result : float;
  abs_diff : float
}.

Definition row_of (n : Z) (l : locals) : row :=
  {| row_n := n; row_result := result l; row_abs_diff := abs_diff l |}.

(** What the page shows after the script has run. *)
Inductive page : Type :=
| Results (rows : list row)
| Waiting.

(** ** law_large_numbers.py *)

Module LLN.

(** The widgets' state: the slider position, the number typed in the seed
    field (if any), the checkbox and the button. *)
Record widgets : Type := {
  slider : float;
  number_input : option Z;
  checkbox : bool;
  button : bool
}.

(** [st.number_input("Random seed (optional)", value=42, step=1)]. *)
Definition seed_of (w : widgets) : Z :=
  match number_input w with
  | Some v => v
  | None => 42
  end.

Definition n_values (include_big_n : bool) : list Z :=
  [10; 50; 100; 1000] ++ (if include_big_n then [10000000] else []).

Section WithGenerator.
Context {G : Generator}.
Local Open Scope py_scope.

(** The three assignments of the loop body. *)
Definition iteration (p : float) (rng : bitgen) (n : Z)
  : py (locals * bitgen) :=
  '(successes, rng) <- binomial rng n p ;;
  result <- int_truediv successes n ;;
  let abs_diff := fabs (fsub result p) in
  ret ({| successes := successes; result := result;
          abs_diff := abs_diff |}, rng).

(** [for n in n_values: ...; rows.append({...})]. *)
Fixpoint loop (p : float) (n_values : list Z) (rng : bitgen)
         (rows : list row) : py (list row * bitgen) :=
  match n_values with
  | [] => ret (rows, rng)
  | n :: rest =>
      '(l, rng) <- iteration p rng n ;;
      loop p rest rng (rows ++ [row_of n l])
  end.

(** The seed argument the script hands to [default_rng]. *)
Definition seed_argument (w : widgets) : option Z := Some (seed_of w).

Definition app (w : widgets) (os_entropy : N) : py page :=
  let p := slider w in
  let include_big_n := checkbox w in
  let n_values := n_values include_big_n in
  let run := button w in
  if run then
    rng <- default_rng (seed_argument w) os_entropy ;;
    '(rows, _) <- loop p n_values rng [] ;;
    ret (Results rows)
  else ret Waiting.

(** The rows keep [n], [result] and [abs_diff] but not [successes].  To
    speak of the counts a run draws, the same loop is read once more,
    keeping what each pass assigned to its three variables instead of the
    row appended. *)
Fixpoint trace (p : float) (n_values : list Z) (rng : bitgen)
  : py (list locals * bitgen) :=
  match n_values with
  | [] => ret ([], rng)
  | n :: rest =>
      '(l, rng) <- iteration p rng n ;;
      '(ls, rng) <- trace p rest rng ;;
      ret (l :: ls, rng)
  end.

(** The values [successes] takes during one run of the script, in order;
    none when the button is not pressed. *)
Definition drawn (w : widgets) (os_entropy : N) : py (list Z) :=
  let p := slider w in
  let include_big_n := checkbox w in
  let n_values := n_values include_big_n in
  let run := button w in
  if run then
    rng <- default_rng (seed_argument w) os_entropy ;;
    '(ls, _) <- trace p n_values rng ;;
    ret (map successes ls)
  else ret [].

End WithGenerator.

End LLN.

(** ** law_large_numbers3.py *)

Module LLN3.

Record widgets : Type := {
  slider : float;
  checkbox : bool;
  button : bool
}.

Definition n_values (include_big_n : bool) : list Z :=
  [10; 50; 100; 1000] ++ (if include_big_n then [10000000] else []).

Section WithGenerator.
Context {G : Generator}.
Local Open Scope py_scope.

Definition iteration (p : float) (rng : bitgen) (n : Z)
  : py (locals * bitgen) :=
  '(successes, rng) <- binomial rng n p ;;
  result <- int_truediv successes n ;;
  let abs_diff := fabs (fsub result p) in
  ret ({| successes := successes; result := result;
          abs_diff := abs_diff |}, rng).

Fixpoint loop (p : float) (n_values : list Z) (rng : bitgen)
         (rows : list row) : py (list row * bitgen) :=
  match n_values with
  | [] => ret (rows, rng)
  | n :: rest =>
      '(l, rng) <- iteration p rng n ;;
      loop p rest rng (rows ++ [row_of n l])
  end.

Definition app (w : widgets) (os_entropy : N) : py page :=
  let p := slider w in
  let include_big_n := checkbox w in
  let n_values := n_values include_big_n in
  let run := button w in
  if run then
    rng <- default_rng None os_entropy ;;
    '(rows, _) <- loop p n_values rng [] ;;
    ret (Results rows)
  else ret Waiting.

End WithGenerator.

End LLN3.

(** ** The draws of a run *)

(** The counts the sampler hands out when it is called once per sample size,
    in order, each call continuing from the state the previous one left. *)
Fixpoint draws {G : Generator} (p : float) (n_values : list Z)
         (rng : bitgen) : list Z :=
  match n_values with
  | [] => []
  | n :: rest =>
      let '(successes, rng) := random_binomial rng n p in
      successes :: draws p rest rng
  end.

(** The row recorded for sample size [n] when [successes] was drawn. *)
Definition trial_row (p : float) (n successes : Z) : row :=
  let result := fdiv (int_as_float successes) (int_as_float n) in
  {| row_n := n; row_result := result;
     row_abs_diff := fabs (fsub result p) |}.

(** What the row of one iteration must hold, in the script's own terms:
    [result] is [successes / n] and the last field is [abs(result - p)]. *)
Definition records (p : float) (n successes : Z) (r : row) : Prop :=
  row_n r = n
  /\ int_truediv successes n = ret (row_result r)
  /\ row_abs_diff r = fabs (fsub (row_result r) p).

Fixpoint trial_rows (p : float) (n_values successes : list Z) : list row :=
  match n_values, successes with
  | n :: ns, s :: ss => trial_row p n s :: trial_rows p ns ss
  | _, _ => []
  end.

(** ** The table both scripts show *)

(** [st.dataframe(df.style.format({"result": "{:.4f}",
    "|result - p|": "{:.4f}"}))]: the two float columns pass through
    Python's fixed-point formatting with four decimals. *)
Module Table.

Import String Ascii.

(** [a / b] rounded to the nearest integer, ties to the even one; [b > 0]. *)
Definition round_half_even (a b : Z) : Z :=
  let q := a / b in
  match 2 * (a mod b) ?= b with
  | Lt => q
  | Eq => if Z.even q then q else q + 1
  | Gt => q + 1
  end.

(** The magnitude of a finite float in ten-thousandths, correctly rounded
    from its exact value [m * 2^e]. *)
Definition ten_thousandths (x : float) : Z :=
  match x with
  | S754_finite _ m e =>
      round_half_even (Zpos m * 10000 * 2 ^ Z.max e 0) (2 ^ Z.max (- e) 0)
  | _ => 0
  end.

Definition digit (d : Z) : ascii := ascii_of_N (48 + Z.to_N (d mod 10)).

(** [t] ten-thousandths in decimal, with four digits after the point. *)
Definition fixed4 (t : Z) : string :=
  (DecimalString.NilZero.string_of_uint (N.to_uint (Z.to_N (t / 10000)))
   ++ String "." (String (digit (t / 1000)) (String (digit (t / 100))
        (String (digit (t / 10)) (String (digit t) EmptyString)))))%string.

Definition sign (s : bool) : string := if s then "-"%string else ""%string.

(** ["{:.4f}".format(x)]. *)
Definition format_4f (x : float) : string :=
  match x with
  | S754_nan => "nan"%string
  | S754_infinity s => (sign s ++ "inf")%string
  | S754_zero s => (sign s ++ "0.0000")%string
  | S754_finite s _ _ => (sign s ++ fixed4 (ten_thousandths x))%string
  end.

(** One line of the table: [n] as it is, the two floats formatted. *)
Definition styled (r : row) : Z * string * string :=
  (row_n r, format_4f (row_result r), format_4f (row_abs_diff r)).

(** Reading a cell back.  A decimal digit's value: *)
Definition digit_value (c : ascii) : option Z :=
  let n := Z.of_N (N_of_ascii c) in
  if (48 <=? n) && (n <=? 57) then Some (n - 48) else None.

(** the numeral [acc] followed by the digits of [s]; nothing but digits
    may occur: *)
Fixpoint digits (s : string) (acc : Z) : option Z :=
  match s with
  | EmptyString => Some acc
  | String c s' =>
      match digit_value c with
      | Some d => digits s' (10 * acc + d)
      | None => None
      end
  end.

(** digits, a point and exactly four more digits, as a number of
    ten-thousandths: *)
Fixpoint unsigned (s : string) (acc : Z) : option Z :=
  match s with
  | EmptyString => None
  | String c s' =>
      if Ascii.eqb c "."%char then
        if (String.length s' =? 4)%nat then digits s' acc else None
      else
        match digit_value c with
        | Some d => unsigned s' (10 * acc + d)
        | None => None
        end
  end.

(** and the number of ten-thousandths a shown cell denotes, with its
    sign; [None] for anything that is not of the form [-d...d.dddd],
    such as [nan] and [inf]. *)
Definition shown_value (s : string) : option Z :=
  match s with
  | String c s' =>
      if Ascii.eqb c "-"%char then option_map Z.opp (unsigned s' 0)
      else unsigned s 0
  | EmptyString => None
  end.

(** The numeral [acc] followed by the digits of [d], for the integer part
    as [fixed4] writes it. *)
Fixpoint uint_value (d : Decimal.uint) (acc : Z) : Z :=
  match d with
  | Decimal.Nil => acc
  | Decimal.D0 l => uint_value l (10 * acc)
  | Decimal.D1 l => uint_value l (10 * acc + 1)
  | Decimal.D2 l => uint_value l (10 * acc + 2)
  | Decimal.D3 l => uint_value l (10 * acc + 3)
  | Decimal.D4 l => uint_value l (10 * acc + 4)
  | Decimal.D5 l => uint_value l (10 * acc + 5)
  | Decimal.D6 l => uint_value l (10 * acc + 6)
  | Decimal.D7 l => uint_value l (10 * acc + 7)
  | Decimal.D8 l => uint_value l (10 * acc + 8)
  | Decimal.D9 l => uint_value l (10 * acc + 9)
  end.

End Table.

(** ** A small concrete generator *)

(** A 64-bit linear congruential bit generator; one Bernoulli trial compares
    the next state's top 53 bits with [p], and the binomial sampler counts the
    successes of [n] such trials. *)
Module Lcg.

Definition next (s : Z) : Z :=
  (6364136223846793005 * s + 1442695040888963407) mod 2 ^ 64.

(** [threshold] is [ival p]: the trial succeeds when the 53-bit fraction
    drawn lies below [p]. *)
Definition bernoulli (s : Z) (threshold : Z) : bool :=
  Z.shiftl (Z.shiftr s 11) 1021 <? threshold.

Fixpoint count (k : nat) (s : Z) (threshold : Z) (acc : Z) : Z * Z :=
  match k with
  | O => (acc, s)
  | S k' =>
      let s' := next s in
      count k' s' threshold (if bernoulli s' threshold then acc + 1 else acc)
  end.

Definition sample (s : Z) (n : Z) (p : float) : Z * Z :=
  count (Z.to_nat n) s (ival p) 0.

#[export] Instance generator : Generator := {
  bitgen := Z;
  seed_bitgen := fun seed => seed mod 2 ^ 64;
  random_binomial := sample
}.

End Lcg.

(** * Properties *)

(** ** The error monad *)

Lemma bind_ret_inv {A B} (c : py A) (k : A -> py B) (b : B) :
  bind c k = ret b -> exists a, c = ret a /\ k a = ret b.
Proof.
  destruct c as [e | a]; simpl; intros H.
  - discriminate H.
  - exists a. split; [reflexivity | exact H].
Qed.

Lemma bind_raise_inv {A B} (c : py A) (k : A -> py B) (e : exn) :
  bind c k = raise e ->
  c = raise e \/ exists a, c = ret a /\ k a = raise e.
Proof.
  destruct c as [e' | a]; simpl; intros H.
  - left. injection H as ->. reflexivity.
  - right. exists a. split; [reflexivity | exact H].
Qed.

(** ** One call of the sampler *)

Section BinomialCall.
Context {G : Generator}.

Lemma binomial_admissible rng n p :
  admissible n p = true ->
  binomial rng n p = ret (random_binomial rng n p).
Proof.
  unfold admissible, binomial. intros H.
  rewrite !andb_true_iff in H. destruct H as [[[H H0] H1] H2].
  apply Z.leb_le in H. apply Z.ltb_lt in H0.
  replace (- 2 ^ 63 <=? n) with true by (symmetry; apply Z.leb_le; lia).
  replace (n <? 2 ^ 63) with true by (symmetry; apply Z.ltb_lt; lia).
  rewrite H1, H2. simpl.
  replace (n <? 0) with false by (symmetry; apply Z.ltb_ge; lia).
  reflexivity.
Qed.

Lemma binomial_ret_inv rng n p s rng' :
  binomial rng n p = ret (s, rng') ->
  random_binomial rng n p = (s, rng') /\ admissible n p = true.
Proof.
  unfold binomial, admissible. intros H.
  destruct (- 2 ^ 63 <=? n) eqn:Hlo; cbn [negb andb] in H; [| discriminate H].
  destruct (n <? 2 ^ 63) eqn:Hhi; cbn [negb andb] in H; [| discriminate H].
  destruct (fle fzero p) eqn:Hp0; cbn [negb andb] in H; [| discriminate H].
  destruct (fle p fone) eqn:Hp1; cbn [negb andb] in H; [| discriminate H].
  destruct (n <? 0) eqn:Hn; [discriminate H |].
  injection H as H. split; [exact H |].
  apply Z.ltb_ge in Hn. apply Z.leb_le in Hn. rewrite Hn. reflexivity.
Qed.

Lemma binomial_never_zero_division rng n p :
  binomial rng n p <> raise ZeroDivisionError.
Proof.
  unfold binomial, raise, ret.
  destruct (negb _); [discriminate |].
  destruct (negb _); [discriminate |].
  destruct (n <? 0); discriminate.
Qed.

Lemma valid_p_admissible n p :
  valid_p p = true -> 0 <= n < 2 ^ 63 -> admissible n p = true.
Proof.
  unfold valid_p, admissible. intros Hp [Hn0 Hn1].
  rewrite !andb_true_iff in Hp. destruct Hp as [[_ H] H0].
  apply Z.leb_le in Hn0. apply Z.ltb_lt in Hn1.
  rewrite Hn0, Hn1, H, H0. reflexivity.
Qed.

End BinomialCall.

(** ** One iteration, and the loop *)

Lemma int_truediv_nonzero a b :
  b <> 0 -> int_truediv a b = ret (fdiv (int_as_float a) (int_as_float b)).
Proof.
  intros Hb. unfold int_truediv.
  destruct (b =? 0) eqn:E; [apply Z.eqb_eq in E; contradiction | reflexivity].
Qed.

Lemma int_truediv_ret_inv a b f :
  int_truediv a b = ret f ->
  b <> 0 /\ f = fdiv (int_as_float a) (int_as_float b).
Proof.
  unfold int_truediv. destruct (b =? 0) eqn:E; intros H.
  - discriminate H.
  - apply Z.eqb_neq in E. injection H as <-. split; [exact E | reflexivity].
Qed.

Section Loop.
Context {G : Generator}.

Lemma iteration_ret_inv p rng n l rng' :
  LLN.iteration p rng n = ret (l, rng') ->
  random_binomial rng n p = (successes l, rng')
  /\ admissible n p = true /\ n <> 0
  /\ result l = fdiv (int_as_float (successes l)) (int_as_float n)
  /\ abs_diff l = fabs (fsub (result l) p).
Proof.
  unfold LLN.iteration. intros H.
  apply bind_ret_inv in H. destruct H as [[s g] [Hb H]].
  apply bind_ret_inv in H. destruct H as [f [Hd H]].
  injection H as <- <-. simpl.
  apply binomial_ret_inv in Hb. destruct Hb as [Hb Ha].
  apply int_truediv_ret_inv in Hd. destruct Hd as [Hn Hf].
  repeat split; assumption || reflexivity.
Qed.

Lemma iteration_admissible p rng n :
  admissible n p = true -> n <> 0 ->
  exists l,
    LLN.iteration p rng n = ret (l, snd (random_binomial rng n p))
    /\ successes l = fst (random_binomial rng n p)
    /\ row_of n l = trial_row p n (fst (random_binomial rng n p)).
Proof.
  intros Ha Hn. unfold LLN.iteration.
  rewrite (binomial_admissible _ _ _ Ha).
  destruct (random_binomial rng n p) as [s g]. simpl.
  rewrite (int_truediv_nonzero _ _ Hn). simpl.
  eexists. split; [reflexivity |]. split; reflexivity.
Qed.

Lemma iteration_never_zero_division p rng n :
  n <> 0 -> LLN.iteration p rng n <> raise ZeroDivisionError.
Proof.
  intros Hn H. unfold LLN.iteration in H.
  apply bind_raise_inv in H. destruct H as [H | [[s g] [_ H]]].
  - exact (binomial_never_zero_division _ _ _ H).
  - rewrite (int_truediv_nonzero _ _ Hn) in H. discriminate H.
Qed.

Lemma row_of_trial_row p rng n l rng' :
  LLN.iteration p rng n = ret (l, rng') ->
  row_of n l = trial_row p n (successes l).
Proof.
  intros H. apply iteration_ret_inv in H.
  destruct H as (_ & _ & _ & Hr & Ha).
  unfold row_of, trial_row. rewrite Ha, Hr. reflexivity.
Qed.

Lemma loop_spec p ns : forall rng rows rows' rng',
  LLN.loop p ns rng rows = ret (rows', rng') ->
  rows' = rows ++ trial_rows p ns (draws p ns rng).
Proof.
  induction ns as [| n ns IH]; intros rng rows rows' rng' H.
  - injection H as <- _. simpl. rewrite app_nil_r. reflexivity.
  - cbn [LLN.loop] in H.
    apply bind_ret_inv in H. destruct H as [[l g] [Hi H]].
    apply IH in H. subst rows'.
    rewrite (row_of_trial_row _ _ _ _ _ Hi).
    apply iteration_ret_inv in Hi. destruct Hi as (Hb & _).
    cbn [draws]. rewrite Hb. cbn [trial_rows].
    rewrite <- app_assoc. reflexivity.
Qed.

Lemma loop_total p ns : forall rng rows,
  Forall (fun n => admissible n p = true /\ n <> 0) ns ->
  exists rng',
    LLN.loop p ns rng rows
    = ret (rows ++ trial_rows p ns (draws p ns rng), rng').
Proof.
  induction ns as [| n ns IH]; intros rng rows Hns.
  - exists rng. simpl. rewrite app_nil_r. reflexivity.
  - inversion Hns as [| ? ? [Ha Hn] Hrest]; subst.
    destruct (iteration_admissible p rng n Ha Hn) as (l & Hi & _ & Hr).
    cbn [LLN.loop]. rewrite Hi. cbn [bind ret].
    destruct (IH (snd (random_binomial rng n p)) (rows ++ [row_of n l]) Hrest)
      as [rng' Hl].
    exists rng'. rewrite Hl, Hr. cbn [draws].
    destruct (random_binomial rng n p) as [s g]. cbn [fst snd trial_rows].
    rewrite <- app_assoc. reflexivity.
Qed.

Lemma loop_never_zero_division p ns : forall rng rows,
  Forall (fun n => n <> 0) ns ->
  LLN.loop p ns rng rows <> raise ZeroDivisionError.
Proof.
  induction ns as [| n ns IH]; intros rng rows Hns H.
  - discriminate H.
  - inversion Hns as [| ? ? Hn Hrest]; subst.
    cbn [LLN.loop] in H.
    apply bind_raise_inv in H. destruct H as [H | [[l g] [_ H]]].
    + exact (iteration_never_zero_division _ _ _ Hn H).
    + exact (IH _ _ Hrest H).
Qed.

Lemma draws_length p ns : forall rng, length (draws p ns rng) = length ns.
Proof.
  induction ns as [| n ns IH]; intros rng; cbn [draws].
  - reflexivity.
  - destruct (random_binomial rng n p) as [s g]. simpl. rewrite IH.
    reflexivity.
Qed.

Lemma trial_rows_sizes p ns : forall ss,
  length ss = length ns -> map row_n (trial_rows p ns ss) = ns.
Proof.
  induction ns as [| n ns IH]; intros [| s ss] Hlen; simpl in *;
    try reflexivity; try discriminate.
  rewrite IH by lia. reflexivity.
Qed.

(** The second script's loop is the first one's. *)
Lemma iteration3_iteration p rng n :
  LLN3.iteration p rng n = LLN.iteration p rng n.
Proof. reflexivity. Qed.

Lemma loop3_loop p ns : forall rng rows,
  LLN3.loop p ns rng rows = LLN.loop p ns rng rows.
Proof.
  induction ns as [| n ns IH]; intros rng rows.
  - reflexivity.
  - cbn [LLN3.loop LLN.loop]. rewrite iteration3_iteration.
    destruct (LLN.iteration p rng n) as [e | [l g]]; simpl;
      [reflexivity | apply IH].
Qed.

End Loop.

(** ** The configured sample sizes *)

Lemma n_values_cases b :
  LLN.n_values b = if b then [10; 50; 100; 1000; 10000000]
                   else [10; 50; 100; 1000].
Proof. destruct b; reflexivity. Qed.

Lemma n_values3_n_values b : LLN3.n_values b = LLN.n_values b.
Proof. reflexivity. Qed.

Lemma n_values_positive b : Forall (fun n => 0 < n < 2 ^ 63) (LLN.n_values b).
Proof.
  rewrite n_values_cases.
  destruct b; repeat constructor; reflexivity.
Qed.

Lemma n_values_nonzero b : Forall (fun n => n <> 0) (LLN.n_values b).
Proof.
  eapply Forall_impl; [| apply n_values_positive].
  simpl. intros n Hn. lia.
Qed.

Lemma n_values_admissible p b :
  fle fzero p && fle p fone = true ->
  Forall (fun n => admissible n p = true /\ n <> 0) (LLN.n_values b).
Proof.
  intros Hp. apply andb_true_iff in Hp. destruct Hp as [H0 H1].
  eapply Forall_impl; [| apply n_values_positive].
  simpl. intros n [Hn0 Hn1]. split; [| lia].
  unfold admissible. rewrite H0, H1.
  replace (0 <=? n) with true by (symmetry; apply Z.leb_le; lia).
  replace (n <? 2 ^ 63) with true by (symmetry; apply Z.ltb_lt; lia).
  reflexivity.
Qed.

(** ** Binary digits *)

Lemma digits2_pos_size (m : positive) : digits2_pos m = Pos.size m.
Proof. induction m as [m IH | m IH |]; simpl; congruence. Qed.

Lemma Zdigits2_log2 (v : Z) : 0 < v -> Zdigits2 v = Z.log2 v + 1.
Proof.
  destruct v as [| m | m]; try lia. intros _.
  destruct m as [m | m |]; simpl; rewrite ?digits2_pos_size; lia.
Qed.

Lemma Zdigits2_nonneg (v : Z) : 0 <= Zdigits2 v.
Proof. destruct v; simpl; lia. Qed.

Lemma Zdigits2_le_iff (v k : Z) :
  0 <= v -> 0 <= k -> (Zdigits2 v <= k <-> v < 2 ^ k).
Proof.
  intros Hv Hk.
  destruct (Z.eq_dec v 0) as [-> | Hne].
  - simpl. split; intros _; [apply Z.pow_pos_nonneg; lia | lia].
  - rewrite Zdigits2_log2 by lia.
    rewrite (Z.log2_lt_pow2 v k) by lia. lia.
Qed.

Lemma Zdigits2_ge_iff (v k : Z) :
  0 < v -> (2 ^ (k - 1) <= v <-> k <= Zdigits2 v) \/ k < 1.
Proof.
  intros Hv. destruct (Z_lt_dec k 1) as [Hk | Hk]; [right; exact Hk | left].
  rewrite Zdigits2_log2 by lia.
  rewrite (Z.log2_le_pow2 v (k - 1)) by lia. lia.
Qed.

Lemma Zdigits2_lower (v : Z) : 0 < v -> 2 ^ (Zdigits2 v - 1) <= v.
Proof.
  intros Hv. rewrite Zdigits2_log2 by lia.
  replace (Z.log2 v + 1 - 1) with (Z.log2 v) by lia.
  apply Z.log2_spec. exact Hv.
Qed.

Lemma Zdigits2_upper (v : Z) : 0 <= v -> v < 2 ^ Zdigits2 v.
Proof.
  intros Hv. apply Zdigits2_le_iff; [exact Hv | apply Zdigits2_nonneg | lia].
Qed.

Lemma Zdigits2_mono (a b : Z) : 0 <= a <= b -> Zdigits2 a <= Zdigits2 b.
Proof.
  intros [Ha Hab].
  apply Zdigits2_le_iff; [lia | apply Zdigits2_nonneg |].
  pose proof (Zdigits2_upper b). lia.
Qed.

Lemma Zdigits2_mul_pow2 (v k : Z) :
  0 < v -> 0 <= k -> Zdigits2 (v * 2 ^ k) = Zdigits2 v + k.
Proof.
  intros Hv Hk.
  assert (0 < 2 ^ k) by (apply Z.pow_pos_nonneg; lia).
  rewrite !Zdigits2_log2 by nia.
  rewrite Z.log2_mul_pow2 by lia. lia.
Qed.

Lemma Zdigits2_unique (v d : Z) :
  1 <= d -> 2 ^ (d - 1) <= v < 2 ^ d -> Zdigits2 v = d.
Proof.
  intros Hd [Hlo Hhi].
  assert (0 < 2 ^ (d - 1)) by (apply Z.pow_pos_nonneg; lia).
  rewrite Zdigits2_log2 by lia.
  rewrite (Z.log2_unique v (d - 1)); [lia | lia |].
  replace (Z.succ (d - 1)) with d by lia. lia.
Qed.

(** ** Shifting a truncation record *)

Lemma iter_pos_succ {A} (f : A -> A) (p : positive) (x : A) :
  iter_pos f p (f x) = f (iter_pos f p x).
Proof.
  revert x. induction p as [p IH | p IH |]; intros x; simpl.
  - rewrite !IH. reflexivity.
  - rewrite !IH. reflexivity.
  - reflexivity.
Qed.

Lemma iter_pos_nat {A} (f : A -> A) (p : positive) (x : A) :
  iter_pos f p x = Nat.iter (Pos.to_nat p) f x.
Proof.
  revert x. induction p as [p IH | p IH |]; intros x; cbn [iter_pos].
  - rewrite !iter_pos_succ, !IH, Pos2Nat.inj_xI.
    replace (S (2 * Pos.to_nat p))%nat with (S (Pos.to_nat p + Pos.to_nat p))
      by lia.
    rewrite Nat.iter_succ, Nat.iter_add. reflexivity.
  - rewrite !IH, Pos2Nat.inj_xO.
    replace (2 * Pos.to_nat p)%nat with (Pos.to_nat p + Pos.to_nat p)%nat
      by lia.
    rewrite Nat.iter_add. reflexivity.
  - reflexivity.
Qed.

Lemma shr_shrn (mrs : shr_record) (e n : Z) :
  0 <= n -> shr mrs e n = (shrn (Z.to_nat n) mrs, e + n).
Proof.
  intros Hn. unfold shr, shrn. destruct n as [| p | p]; try lia.
  - simpl. rewrite Z.add_0_r. reflexivity.
  - rewrite iter_pos_nat. reflexivity.
Qed.

Lemma shrn_add (a b : nat) (mrs : shr_record) :
  shrn (a + b) mrs = shrn a (shrn b mrs).
Proof. unfold shrn. apply Nat.iter_add. Qed.

Lemma shr_1_m (mrs : shr_record) :
  0 <= shr_m mrs -> shr_m (shr_1 mrs) = shr_m mrs / 2.
Proof.
  destruct mrs as [m r s]. simpl. intros Hm.
  destruct m as [| [p | p |] | p]; try lia; simpl shr_m.
  - reflexivity.
  - rewrite Pos2Z.inj_xI.
    apply (Z.div_unique _ _ _ 1); lia.
  - rewrite Pos2Z.inj_xO.
    apply (Z.div_unique _ _ _ 0); lia.
  - reflexivity.
Qed.

Lemma shr_1_code (mrs : shr_record) :
  0 <= shr_m mrs ->
  code (shr_1 mrs)
  = 2 * (code mrs / 4) + (if code mrs mod 4 =? 0 then 0 else 1).
Proof.
  destruct mrs as [m r s]. unfold code. simpl shr_m. intros Hm.
  assert (Hq : forall c, 0 <= c < 4 -> (4 * m + c) / 4 = m
                                     /\ (4 * m + c) mod 4 = c).
  { intros c Hc. split; symmetry.
    - apply (Z.div_unique _ _ _ c); lia.
    - apply (Z.mod_unique _ _ m); lia. }
  destruct m as [| [p | p |] | p]; try lia;
    destruct r, s; cbn [shr_1 shr_m shr_r shr_s orb Z.b2z];
    match goal with
    | |- context [(?a + ?b + ?c) / 4] =>
        destruct (Hq (b + c) ltac:(simpl; lia)) as [E1 E2];
        replace (a + b + c) with (a + (b + c)) by lia
    end;
    try (rewrite E1, E2); simpl; try lia.
Qed.

Lemma shr_1_nonneg (mrs : shr_record) :
  0 <= shr_m mrs -> 0 <= shr_m (shr_1 mrs).
Proof.
  intros H. rewrite shr_1_m by exact H. apply Z.div_pos; lia.
Qed.

Lemma shrn_S (k : nat) (mrs : shr_record) :
  shrn (S k) mrs = shr_1 (shrn k mrs).
Proof. reflexivity. Qed.

Lemma shrn_nonneg (k : nat) (mrs : shr_record) :
  0 <= shr_m mrs -> 0 <= shr_m (shrn k mrs).
Proof.
  intros H. induction k as [| k IH]; [exact H |].
  rewrite shrn_S. apply shr_1_nonneg. exact IH.
Qed.

Lemma shrn_m (k : nat) (mrs : shr_record) :
  0 <= shr_m mrs -> shr_m (shrn k mrs) = shr_m mrs / 2 ^ Z.of_nat k.
Proof.
  intros H. induction k as [| k IH].
  - simpl. rewrite Z.div_1_r. reflexivity.
  - rewrite shrn_S, shr_1_m by (apply shrn_nonneg; exact H).
    rewrite IH, Nat2Z.inj_succ, Z.pow_succ_r by lia.
    rewrite Z.div_div by (try apply Z.pow_pos_nonneg; lia).
    f_equal. lia.
Qed.

Lemma jam_mono (t1 t2 : Z) :
  t1 <= t2 ->
  2 * (t1 / 4) + (if t1 mod 4 =? 0 then 0 else 1)
  <= 2 * (t2 / 4) + (if t2 mod 4 =? 0 then 0 else 1).
Proof.
  intros H.
  destruct (t1 mod 4 =? 0) eqn:E1; destruct (t2 mod 4 =? 0) eqn:E2;
    rewrite ?Z.eqb_eq, ?Z.eqb_neq in *;
    Z.div_mod_to_equations; lia.
Qed.

Lemma shrn_code_mono (k : nat) (a b : shr_record) :
  0 <= shr_m a -> 0 <= shr_m b -> code a <= code b ->
  code (shrn k a) <= code (shrn k b).
Proof.
  intros Ha Hb H. induction k as [| k IH]; [exact H |].
  rewrite !shrn_S, !shr_1_code by (apply shrn_nonneg; assumption).
  apply jam_mono. exact IH.
Qed.

Lemma shr_1_exact_double (u : Z) :
  0 <= u -> shr_1 (exact (2 * u)) = exact u.
Proof.
  intros Hu. destruct u as [| p | p]; try lia; reflexivity.
Qed.

Lemma shrn_exact (k : nat) (w : Z) :
  0 <= w -> shrn k (exact (w * 2 ^ Z.of_nat k)) = exact w.
Proof.
  revert w. induction k as [| k IH]; intros w Hw.
  - simpl. rewrite Z.mul_1_r. reflexivity.
  - rewrite shrn_S, Nat2Z.inj_succ, Z.pow_succ_r by lia.
    replace (w * (2 * 2 ^ Z.of_nat k)) with ((2 * w) * 2 ^ Z.of_nat k) by lia.
    rewrite IH by lia. apply shr_1_exact_double. exact Hw.
Qed.

Lemma shrn_two_loc (m : Z) (l : location) :
  0 <= m -> shrn 2 (exact (4 * m + loc_code l)) = shr_record_of_loc m l.
Proof.
  intros Hm.
  destruct m as [| p | p]; try lia;
    destruct l as [| [| |]]; reflexivity.
Qed.

Lemma loc_code_range (l : location) : 0 <= loc_code l < 4.
Proof. destruct l as [| [| |]]; simpl; lia. Qed.

(** ** Rounding a record *)

Lemma rne_exact (m : Z) : rne (exact m) = m.
Proof. reflexivity. Qed.

Lemma rne_bounds (a : shr_record) : shr_m a <= rne a <= shr_m a + 1.
Proof.
  destruct a as [m [|] [|]]; unfold rne; simpl; try lia.
  destruct (Z.even m); lia.
Qed.

Lemma rne_mono (a b : shr_record) :
  code a <= code b -> rne a <= rne b.
Proof.
  destruct a as [m r s], b as [m' r' s']. unfold code, rne.
  pose proof (Zmod_even m) as Em. pose proof (Zmod_even m') as Em'.
  destruct r, s, r', s';
    cbn [shr_m shr_r shr_s Z.b2z loc_of_shr_record round_nearest_even];
    intros H; revert Em Em';
    destruct (Z.even m); destruct (Z.even m'); intros Em Em';
    Z.div_mod_to_equations; lia.
Qed.

(** ** The rounding function [rnd] *)

Lemma fexp_eq (e : Z) : fexp e = Z.max (e - 53) (-1074).
Proof. reflexivity. Qed.

Lemma fexp_mono (a b : Z) : a <= b -> fexp a <= fexp b.
Proof. rewrite !fexp_eq. lia. Qed.

Lemma shr_fexp_eq (m e : Z) (l : location) :
  shr_fexp prec emax m e l
  = shr (shr_record_of_loc m l) e (fexp (Zdigits2 m + e) - e).
Proof. reflexivity. Qed.

Lemma shr_nonpos (mrs : shr_record) (e n : Z) :
  n <= 0 -> shr mrs e n = (mrs, e).
Proof. intros Hn. destruct n; try lia; reflexivity. Qed.

Lemma width_ge (v : Z) : 2 <= width v.
Proof. unfold width. lia. Qed.

Lemma width_upper (v : Z) : 0 <= v -> v < 2 ^ (width v + 53).
Proof.
  intros Hv. pose proof (width_ge v).
  apply Zdigits2_le_iff; [exact Hv | lia |].
  unfold width, prec. lia.
Qed.

Lemma width_lower (v : Z) : 0 <= v -> 2 < width v -> 2 ^ (width v + 52) <= v.
Proof.
  intros Hv Hw.
  assert (Hd : Zdigits2 v = width v + 53) by (unfold width, prec in *; lia).
  assert (Hpos : 0 < v).
  { destruct (Z.eq_dec v 0) as [-> | ?]; [simpl in Hd; lia | lia]. }
  pose proof (Zdigits2_lower v Hpos) as H.
  rewrite Hd in H. replace (width v + 53 - 1) with (width v + 52) in H by lia.
  exact H.
Qed.

Lemma width_mono (a b : Z) : 0 <= a <= b -> width a <= width b.
Proof.
  intros H. pose proof (Zdigits2_mono a b H). unfold width. lia.
Qed.

Lemma width_below (v b : Z) : 0 <= v < 2 ^ b -> 55 <= b -> width v <= b - 53.
Proof.
  intros [Hv Hb] Hb'.
  assert (Zdigits2 v <= b) by (apply Zdigits2_le_iff; lia).
  unfold width, prec. lia.
Qed.

Lemma pow2_split (a b : Z) : 0 <= a -> 0 <= b -> 2 ^ (a + b) = 2 ^ a * 2 ^ b.
Proof. intros. apply Z.pow_add_r; assumption. Qed.

Lemma pow2_pos (a : Z) : 0 <= a -> 0 < 2 ^ a.
Proof. intros. apply Z.pow_pos_nonneg; lia. Qed.

Lemma trunc_upper (v : Z) : 0 <= v -> v / 2 ^ width v < 2 ^ 53.
Proof.
  intros Hv. pose proof (width_ge v) as Hw.
  apply Z.div_lt_upper_bound; [apply pow2_pos; lia |].
  rewrite <- pow2_split by lia. apply width_upper. exact Hv.
Qed.

Lemma trunc_lower (v : Z) :
  0 <= v -> 2 < width v -> 2 ^ 52 <= v / 2 ^ width v.
Proof.
  intros Hv Hw.
  apply Z.div_le_lower_bound; [apply pow2_pos; lia |].
  rewrite <- pow2_split by lia. apply width_lower; assumption.
Qed.

Lemma trunc_nonneg (v : Z) : 0 <= v -> 0 <= v / 2 ^ width v.
Proof.
  intros Hv. pose proof (width_ge v).
  apply Z.div_pos; [exact Hv | apply pow2_pos; lia].
Qed.

(** The record [rnd] rounds: [v] with its [width v] low bits shifted out. *)
Lemma truncated_m (v : Z) :
  0 <= v -> shr_m (shrn (Z.to_nat (width v)) (exact v)) = v / 2 ^ width v.
Proof.
  intros Hv. pose proof (width_ge v).
  rewrite shrn_m by exact Hv. rewrite Z2Nat.id by lia. reflexivity.
Qed.

Lemma shr_fexp_first (v : Z) :
  0 <= v ->
  shr_fexp prec emax v (emin - 2) loc_Exact
  = (shrn (Z.to_nat (width v)) (exact v), width v - 1076).
Proof.
  intros Hv. pose proof (width_ge v) as Hw.
  rewrite shr_fexp_eq.
  replace (fexp (Zdigits2 v + (emin - 2)) - (emin - 2)) with (width v)
    by (rewrite fexp_eq; unfold width, prec, emin; lia).
  rewrite shr_shrn by lia. f_equal. unfold emin. lia.
Qed.

Lemma shr_fexp_fits (m e : Z) :
  0 <= m < 2 ^ 53 -> -1074 <= e ->
  shr_fexp prec emax m e loc_Exact = (exact m, e).
Proof.
  intros [Hm0 Hm1] He. rewrite shr_fexp_eq.
  apply shr_nonpos.
  assert (Zdigits2 m <= 53) by (apply Zdigits2_le_iff; lia).
  rewrite fexp_eq. lia.
Qed.

Lemma shr_fexp_carry (e : Z) :
  -1074 <= e ->
  shr_fexp prec emax (2 ^ 53) e loc_Exact = (exact (2 ^ 52), e + 1).
Proof.
  intros He. rewrite shr_fexp_eq.
  replace (fexp (Zdigits2 (2 ^ 53) + e) - e) with 1.
  - reflexivity.
  - rewrite fexp_eq. change (Zdigits2 (2 ^ 53)) with 54. lia.
Qed.

Lemma rnd_cases (v : Z) :
  0 <= v < 2 ^ 2099 ->
  let w := width v in
  let m2 := rne (shrn (Z.to_nat w) (exact v)) in
  (m2 = 0 /\ rnd v = S754_zero false)
  \/ (exists m, m2 = Zpos m /\ m2 < 2 ^ 53
                /\ rnd v = S754_finite false m (w - 1076))
  \/ (m2 = 2 ^ 53
      /\ rnd v = S754_finite false 4503599627370496 (w - 1075)).
Proof.
  intros [Hv Hb]. cbv zeta.
  pose proof (width_ge v) as Hw.
  assert (Hw' : width v <= 2046) by (apply (width_below v 2099); lia).
  pose proof (rne_bounds (shrn (Z.to_nat (width v)) (exact v))) as Hm2.
  rewrite truncated_m in Hm2 by exact Hv.
  pose proof (trunc_upper v Hv) as Hup.
  pose proof (trunc_nonneg v Hv) as Hlo.
  unfold rnd, binary_round_aux.
  rewrite shr_fexp_first by exact Hv.
  fold (rne (shrn (Z.to_nat (width v)) (exact v))).
  set (w := width v) in *.
  set (m2 := rne (shrn (Z.to_nat w) (exact v))) in *.
  destruct (Z_lt_dec m2 (2 ^ 53)) as [Hlt | Hge].
  - rewrite shr_fexp_fits by lia. cbn [shr_m exact].
    destruct m2 as [| m | m] eqn:E; try lia.
    + left. split; reflexivity.
    + right. left. exists m. split; [reflexivity |]. split; [exact Hlt |].
      replace (w - 1076 <=? emax - prec) with true
        by (symmetry; apply Z.leb_le; unfold emax, prec; lia).
      reflexivity.
  - right. right.
    assert (E : m2 = 2 ^ 53) by lia.
    rewrite E. split; [reflexivity |].
    rewrite shr_fexp_carry by lia. cbn [shr_m exact].
    change (2 ^ 52) with (Zpos 4503599627370496).
    replace (w - 1076 + 1 <=? emax - prec) with true
      by (symmetry; apply Z.leb_le; unfold emax, prec; lia).
    f_equal. lia.
Qed.

Lemma valid_finite_iff (s : bool) (m : positive) (e : Z) :
  valid (S754_finite s m e) = true
  <-> fexp (Zdigits2 (Zpos m) + e) = e /\ e <= 971.
Proof.
  unfold valid, valid_binary, bounded, canonical_mantissa.
  rewrite andb_true_iff, Z.eqb_eq, Z.leb_le. reflexivity.
Qed.

Lemma canonical_facts (m : positive) (e : Z) :
  fexp (Zdigits2 (Zpos m) + e) = e ->
  -1074 <= e /\ Zpos m < 2 ^ 53 /\ (-1074 < e -> 2 ^ 52 <= Zpos m).
Proof.
  rewrite fexp_eq. intros H.
  pose proof (Zdigits2_upper (Zpos m) ltac:(lia)) as Hup.
  pose proof (Zdigits2_lower (Zpos m) ltac:(lia)) as Hlo.
  pose proof (Zdigits2_nonneg (Zpos m)) as Hd.
  assert (Hd53 : Zdigits2 (Zpos m) <= 53) by lia.
  split; [lia |]. split.
  - apply Zdigits2_le_iff; lia.
  - intros He. replace (Zdigits2 (Zpos m)) with 53 in Hlo by lia. exact Hlo.
Qed.

Lemma rounded_lower (v : Z) :
  0 <= v -> 2 < width v ->
  2 ^ 52 <= rne (shrn (Z.to_nat (width v)) (exact v)).
Proof.
  intros Hv Hw.
  pose proof (rne_bounds (shrn (Z.to_nat (width v)) (exact v))) as H.
  rewrite truncated_m in H by exact Hv.
  pose proof (trunc_lower v Hv Hw). lia.
Qed.

Lemma rounded_upper (v : Z) :
  0 <= v -> rne (shrn (Z.to_nat (width v)) (exact v)) <= 2 ^ 53.
Proof.
  intros Hv.
  pose proof (rne_bounds (shrn (Z.to_nat (width v)) (exact v))) as H.
  rewrite truncated_m in H by exact Hv.
  pose proof (trunc_upper v Hv). lia.
Qed.

Lemma rounded_nonneg (v : Z) :
  0 <= v -> 0 <= rne (shrn (Z.to_nat (width v)) (exact v)).
Proof.
  intros Hv.
  pose proof (rne_bounds (shrn (Z.to_nat (width v)) (exact v))) as H.
  rewrite truncated_m in H by exact Hv.
  pose proof (trunc_nonneg v Hv). lia.
Qed.

(** [rnd v] is worth [rval v], in quarters of the unit of [ival]. *)
Lemma rnd_ival (v : Z) : 0 <= v < 2 ^ 2099 -> 4 * ival (rnd v) = rval v.
Proof.
  intros Hv. pose proof (width_ge v) as Hw. unfold rval.
  destruct (rnd_cases v Hv) as [[E ->] | [(m & E & _ & ->) | [E ->]]];
    cbv zeta in E; rewrite E; cbn [ival cond_Zopp]; unfold scale.
  - lia.
  - replace (width v) with (2 + (width v - 1076 + 1074)) at 2 by lia.
    rewrite (pow2_split 2 (width v - 1076 + 1074)) by lia.
    change (2 ^ 2) with 4. lia.
  - replace (width v) with (1 + (width v - 1075 + 1074)) at 2 by lia.
    rewrite (pow2_split 1 (width v - 1075 + 1074)) by lia.
    change (Z.pos 4503599627370496) with (2 ^ 52).
    change (2 ^ 53) with (2 * 2 ^ 52). change (2 ^ 1) with 2. lia.
Qed.

Lemma rnd_nonneg (v : Z) : 0 <= v < 2 ^ 2099 -> nonneg (rnd v) = true.
Proof.
  intros Hv. pose proof (width_ge v) as Hw.
  assert (Hw' : width v <= 2046) by (apply (width_below v 2099); lia).
  destruct (rnd_cases v Hv) as [[E ->] | [(m & E & Hlt & ->) | [E ->]]];
    cbv zeta in *; cbn [nonneg].
  - reflexivity.
  - apply valid_finite_iff. split; [| lia].
    assert (Hd : Zdigits2 (Zpos m) <= 53) by (apply Zdigits2_le_iff; lia).
    rewrite fexp_eq.
    destruct (Z_lt_dec 2 (width v)) as [Hbig | Hsmall]; [| lia].
    pose proof (rounded_lower v ltac:(lia) Hbig) as Hlo. rewrite E in Hlo.
    rewrite (Zdigits2_unique (Zpos m) 53) by lia. lia.
  - apply valid_finite_iff. split; [| lia].
    rewrite fexp_eq. change (Zdigits2 (Z.pos 4503599627370496)) with 53. lia.
Qed.

Lemma rval_mono (v1 v2 : Z) : 0 <= v1 <= v2 -> rval v1 <= rval v2.
Proof.
  intros [H1 H12]. unfold rval.
  pose proof (width_ge v1) as Hw1.
  pose proof (width_mono v1 v2 ltac:(lia)) as Hw.
  destruct (Z.eq_dec (width v1) (width v2)) as [E | NE].
  - rewrite E. apply Z.mul_le_mono_nonneg_r; [apply Z.lt_le_incl, pow2_pos; lia |].
    apply rne_mono, shrn_code_mono; unfold code;
      cbn [shr_m shr_r shr_s exact Z.b2z]; lia.
  - assert (Hbig : 2 < width v2) by lia.
    pose proof (rounded_upper v1 H1) as Hup.
    pose proof (rounded_lower v2 ltac:(lia) Hbig) as Hlo.
    pose proof (pow2_pos (width v1) ltac:(lia)) as Hp1.
    pose proof (pow2_pos (width v2) ltac:(lia)) as Hp2.
    apply Z.le_trans with (2 ^ 53 * 2 ^ width v1); [nia |].
    apply Z.le_trans with (2 ^ 52 * 2 ^ width v2); [| nia].
    rewrite <- !pow2_split by lia.
    apply Z.pow_le_mono_r; lia.
Qed.

(** A float is the rounding of its own value. *)
Lemma rnd_repr (m : positive) (e : Z) :
  valid (S754_finite false m e) = true ->
  4 * ival (S754_finite false m e) < 2 ^ 2099 ->
  rnd (4 * ival (S754_finite false m e)) = S754_finite false m e.
Proof.
  intros Hval Hbound. apply valid_finite_iff in Hval.
  destruct Hval as [Hc He]. revert Hbound.
  pose proof (canonical_facts m e Hc) as (Hemin & Hm & _).
  cbn [ival cond_Zopp]. unfold scale.
  set (v := 4 * (Z.pos m * 2 ^ (e + 1074))). intros Hbound.
  assert (Ev : v = Zpos m * 2 ^ (e + 1076)).
  { unfold v. replace (e + 1076) with (2 + (e + 1074)) by lia.
    rewrite (pow2_split 2 (e + 1074)) by lia. change (2 ^ 2) with 4. lia. }
  assert (Hw : width v = e + 1076).
  { unfold width. rewrite Ev, Zdigits2_mul_pow2 by lia.
    rewrite fexp_eq in Hc. unfold prec. lia. }
  assert (Hvb : 0 <= v < 2 ^ 2099).
  { split; [| exact Hbound].
    rewrite Ev. pose proof (pow2_pos (e + 1076)). nia. }
  assert (Hm2 : rne (shrn (Z.to_nat (width v)) (exact v)) = Zpos m).
  { rewrite Hw.
    replace (exact v)
      with (exact (Zpos m * 2 ^ Z.of_nat (Z.to_nat (e + 1076))))
      by (rewrite Z2Nat.id, Ev by lia; reflexivity).
    rewrite shrn_exact by lia. apply rne_exact. }
  destruct (rnd_cases v Hvb) as [[E _] | [(m' & E & _ & ->) | [E _]]];
    cbv zeta in E; rewrite Hm2 in E.
  - discriminate E.
  - injection E as <-. rewrite Hw. f_equal. lia.
  - lia.
Qed.

(** ** Every rounding is a [rnd] *)

Lemma round_aux_abs (s : bool) (m e : Z) (l : location) :
  SFabs (binary_round_aux prec emax s m e l)
  = binary_round_aux prec emax false m e l.
Proof.
  unfold binary_round_aux.
  destruct (shr_fexp prec emax m e l) as [mrs' e'].
  destruct (shr_fexp prec emax _ e' loc_Exact) as [mrs'' e''].
  destruct (shr_m mrs''); [reflexivity | | reflexivity].
  destruct (e'' <=? emax - prec); reflexivity.
Qed.

Lemma Zdigits2_quarters (m c : Z) :
  0 < m -> 0 <= c < 4 -> Zdigits2 (4 * m + c) = Zdigits2 m + 2.
Proof.
  intros Hm Hc.
  pose proof (Zdigits2_lower m Hm) as Hlo.
  pose proof (Zdigits2_upper m ltac:(lia)) as Hup.
  assert (Hd : 1 <= Zdigits2 m).
  { rewrite Zdigits2_log2 by lia. pose proof (Z.log2_nonneg m). lia. }
  apply Zdigits2_unique; [lia |].
  replace (Zdigits2 m + 2 - 1) with (2 + (Zdigits2 m - 1)) by lia.
  replace (Zdigits2 m + 2) with (2 + Zdigits2 m) by lia.
  rewrite (pow2_split 2 (Zdigits2 m - 1)), (pow2_split 2 (Zdigits2 m)) by lia.
  change (2 ^ 2) with 4. lia.
Qed.

Lemma Zdigits2_small (c : Z) : 0 <= c < 4 -> Zdigits2 c <= 2.
Proof. intros Hc. apply Zdigits2_le_iff; lia. Qed.

(** An input with a location is rounded like the exact input standing for
    it on the finest grid. *)
Lemma round_aux_reduce (s : bool) (m e : Z) (l : location) :
  0 <= m -> -1074 <= e -> e <= fexp (Zdigits2 m + e) ->
  binary_round_aux prec emax s m e l
  = binary_round_aux prec emax s
      ((4 * m + loc_code l) * 2 ^ (e + 1074)) (emin - 2) loc_Exact.
Proof.
  intros Hm He Hfe.
  pose proof (loc_code_range l) as Hc.
  set (k := e + 1074). set (n0 := fexp (Zdigits2 m + e) - e).
  set (V := (4 * m + loc_code l) * 2 ^ k).
  assert (Hk : 0 <= k) by (unfold k; lia).
  assert (Hn0 : 0 <= n0) by (unfold n0; lia).
  pose proof (pow2_pos k Hk) as Hpk.
  assert (HV : 0 <= V) by (unfold V; nia).
  assert (Hw : width V = n0 + k + 2).
  { unfold width, prec. destruct (Z.eq_dec m 0) as [-> | Hne].
    - simpl in Hfe. rewrite fexp_eq in Hfe.
      assert (k = 0) by (unfold k; lia).
      assert (n0 = 0) by (unfold n0; simpl; rewrite fexp_eq; lia).
      unfold V. replace k with 0 by lia.
      rewrite Z.pow_0_r, Z.mul_1_r, Z.mul_0_r, Z.add_0_l.
      pose proof (Zdigits2_small _ Hc). pose proof (Zdigits2_nonneg (loc_code l)).
      lia.
    - unfold V. rewrite Zdigits2_mul_pow2 by lia.
      rewrite Zdigits2_quarters by lia.
      unfold n0, k. rewrite fexp_eq. lia. }
  assert (Hfirst : shr_fexp prec emax m e l = shr_fexp prec emax V (emin - 2) loc_Exact).
  { rewrite shr_fexp_first by exact HV.
    rewrite shr_fexp_eq. fold n0. rewrite shr_shrn by exact Hn0.
    f_equal; [| rewrite Hw; unfold k; lia].
    rewrite Hw.
    replace (Z.to_nat (n0 + k + 2)) with (Z.to_nat n0 + (2 + Z.to_nat k))%nat
      by lia.
    rewrite !shrn_add. unfold V.
    replace (2 ^ k) with (2 ^ Z.of_nat (Z.to_nat k))
      by (rewrite Z2Nat.id by lia; reflexivity).
    rewrite shrn_exact by lia. rewrite shrn_two_loc by exact Hm.
    reflexivity. }
  unfold binary_round_aux. fold k. fold V. rewrite Hfirst. reflexivity.
Qed.

Lemma iter_xO (m d : positive) :
  Zpos (Pos.iter xO m d) = Zpos m * 2 ^ Zpos d.
Proof.
  induction d as [| d IH] using Pos.peano_ind.
  - simpl. lia.
  - rewrite Pos.iter_succ, Pos2Z.inj_xO, IH, Pos2Z.inj_succ.
    rewrite Z.pow_succ_r by lia. lia.
Qed.

Lemma shl_align_spec (m : positive) (e e' : Z) :
  snd (shl_align m e e') = Z.min e e'
  /\ Zpos (fst (shl_align m e e')) = Zpos m * 2 ^ (e - Z.min e e').
Proof.
  unfold shl_align. destruct (e' - e) as [| d | d] eqn:E; cbn [fst snd].
  - replace (Z.min e e') with e by lia. rewrite Z.sub_diag. split; lia.
  - replace (Z.min e e') with e by lia. rewrite Z.sub_diag. split; lia.
  - replace (Z.min e e') with e' by lia. split; [reflexivity |].
    rewrite iter_xO. f_equal. f_equal. lia.
Qed.

Lemma binary_round_rnd (s : bool) (m : positive) (e : Z) :
  -1074 <= e ->
  binary_round prec emax s m e
  = binary_round_aux prec emax s
      (4 * Zpos m * 2 ^ (e + 1074)) (emin - 2) loc_Exact.
Proof.
  intros He. unfold binary_round.
  pose proof (shl_align_spec m e (SpecFloat.fexp prec emax (Zpos (digits2_pos m) + e)))
    as [Hsnd Hfst].
  destruct (shl_align m e _) as [mz ez]. cbn [fst snd] in Hsnd, Hfst.
  rewrite <- Hsnd in Hfst.
  change (SpecFloat.fexp prec emax (Zpos (digits2_pos m) + e))
    with (fexp (Zdigits2 (Zpos m) + e)) in Hsnd.
  assert (Hfe : -1074 <= fexp (Zdigits2 (Z.pos m) + e)) by (rewrite fexp_eq; lia).
  assert (Hez : -1074 <= ez <= e) by lia.
  assert (Hd : Zdigits2 (Zpos mz) + ez = Zdigits2 (Zpos m) + e).
  { rewrite Hfst, Zdigits2_mul_pow2 by lia. lia. }
  rewrite round_aux_reduce; [| lia | lia | rewrite Hd; lia].
  f_equal. cbn [loc_code]. rewrite Z.add_0_r, Hfst.
  replace (e + 1074) with ((e - ez) + (ez + 1074)) by lia.
  rewrite (pow2_split (e - ez) (ez + 1074)) by lia. lia.
Qed.

Lemma rnd_zero : rnd 0 = S754_zero false.
Proof. reflexivity. Qed.

Lemma binary_normalize_rnd (d e : Z) :
  -1074 <= e -> 0 <= d ->
  binary_normalize prec emax d e false = rnd (4 * d * 2 ^ (e + 1074)).
Proof.
  intros He Hd. destruct d as [| m | m]; try lia.
  - rewrite Z.mul_0_r, Z.mul_0_l. symmetry. exact rnd_zero.
  - cbn [binary_normalize]. rewrite binary_round_rnd by exact He. reflexivity.
Qed.

Lemma binary_normalize_abs (d e : Z) :
  -1074 <= e ->
  SFabs (binary_normalize prec emax d e false)
  = rnd (4 * Z.abs d * 2 ^ (e + 1074)).
Proof.
  intros He. destruct d as [| m | m]; cbn [binary_normalize Z.abs].
  - rewrite Z.mul_0_r, Z.mul_0_l. symmetry. exact rnd_zero.
  - rewrite binary_round_rnd by exact He. apply round_aux_abs.
  - rewrite binary_round_rnd by exact He. apply round_aux_abs.
Qed.

(** ** The rounding decision *)

Lemma code_shrn (k : nat) (v : Z) :
  0 <= v ->
  code (shrn k (exact v))
  = 2 * ((2 * v) / 2 ^ Z.of_nat k)
    + (if (2 * v) mod 2 ^ Z.of_nat k =? 0 then 0 else 1).
Proof.
  intros Hv. induction k as [| k IH].
  - cbn [shrn Nat.iter nat_rect Z.of_nat]. unfold code, exact.
    cbn [shr_m shr_r shr_s Z.b2z].
    rewrite Z.pow_0_r, Z.div_1_r, Z.mod_1_r. cbn [Z.eqb]. lia.
  - rewrite shrn_S, shr_1_code by (apply shrn_nonneg; exact Hv).
    rewrite IH, Nat2Z.inj_succ, Z.pow_succ_r by lia.
    pose proof (pow2_pos (Z.of_nat k) ltac:(lia)) as HP.
    set (P := 2 ^ Z.of_nat k) in *.
    pose proof (Z.div_mod (2 * v) P ltac:(lia)) as Hdm.
    pose proof (Z.mod_pos_bound (2 * v) P HP) as Hr.
    set (A := (2 * v) / P) in *. set (rho := (2 * v) mod P) in *.
    pose proof (Z.div_mod A 2 ltac:(lia)) as HA.
    pose proof (Z.mod_pos_bound A 2 ltac:(lia)) as Hb.
    assert (Hq : (2 * v) / (2 * P) = A / 2).
    { symmetry. apply (Z.div_unique _ _ _ ((A mod 2) * P + rho)); nia. }
    assert (Hm : (2 * v) mod (2 * P) = (A mod 2) * P + rho).
    { symmetry. apply (Z.mod_unique _ _ (A / 2)); nia. }
    rewrite Hq, Hm.
    destruct (Z.eqb_spec rho 0) as [E | NE].
    + rewrite E, Z.add_0_r, Z.add_0_r.
      replace (2 * A / 4) with (A / 2)
        by (apply (Z.div_unique _ _ _ (2 * (A mod 2))); lia).
      replace ((2 * A) mod 4) with (2 * (A mod 2))
        by (apply (Z.mod_unique _ _ (A / 2)); lia).
      destruct (Z.eqb_spec (2 * (A mod 2)) 0) as [E2 | N2];
        destruct (Z.eqb_spec (A mod 2 * P) 0) as [E3 | N3]; try lia; nia.
    + replace ((2 * A + 1) / 4) with (A / 2)
        by (apply (Z.div_unique _ _ _ (2 * (A mod 2) + 1)); lia).
      replace ((2 * A + 1) mod 4) with (2 * (A mod 2) + 1)
        by (apply (Z.mod_unique _ _ (A / 2)); lia).
      destruct (Z.eqb_spec (2 * (A mod 2) + 1) 0) as [E2 | N2];
        destruct (Z.eqb_spec (A mod 2 * P + rho) 0) as [E3 | N3];
        try lia; nia.
Qed.

(** What [rne] decides, from the bits of [v] that are dropped. *)
Lemma rne_decision (v : Z) :
  0 <= v ->
  let w := width v in
  let N := rne (shrn (Z.to_nat w) (exact v)) in
  (N = v / 2 ^ w \/ N = v / 2 ^ w + 1)
  /\ (2 * (v mod 2 ^ w) < 2 ^ w -> N = v / 2 ^ w)
  /\ (2 ^ w < 2 * (v mod 2 ^ w) -> N = v / 2 ^ w + 1).
Proof.
  intros Hv. cbv zeta. pose proof (width_ge v) as Hw.
  pose proof (code_shrn (Z.to_nat (width v)) v Hv) as Hc.
  pose proof (truncated_m v Hv) as Hm.
  rewrite Z2Nat.id in Hc by lia.
  pose proof (pow2_pos (width v) ltac:(lia)) as HP.
  set (P := 2 ^ width v) in *.
  pose proof (Z.div_mod v P ltac:(lia)) as Hdm.
  pose proof (Z.mod_pos_bound v P HP) as Hr.
  set (m := v / P) in *. set (rho := v mod P) in *.
  unfold rne. destruct (shrn (Z.to_nat (width v)) (exact v)) as [m0 r s].
  cbn [shr_m] in Hm. subst m0. unfold code in Hc. cbn [shr_m shr_r shr_s] in Hc.
  assert (Hcase : (2 * rho < P /\ (2 * v) / P = 2 * m
                   /\ (2 * v) mod P = 2 * rho)
                  \/ (P <= 2 * rho /\ (2 * v) / P = 2 * m + 1
                      /\ (2 * v) mod P = 2 * rho - P)).
  { destruct (Z_lt_dec (2 * rho) P) as [L | L]; [left | right];
      (split; [lia |]); split; symmetry.
    - apply (Z.div_unique _ _ _ (2 * rho)); lia.
    - apply (Z.mod_unique _ _ (2 * m)); lia.
    - apply (Z.div_unique _ _ _ (2 * rho - P)); lia.
    - apply (Z.mod_unique _ _ (2 * m + 1)); lia. }
  destruct Hcase as [(L & E1 & E2) | (L & E1 & E2)]; rewrite E1, E2 in Hc.
  - destruct (Z.eqb_spec (2 * rho) 0) as [E | NE];
      destruct r, s; cbn [Z.b2z] in Hc; try lia;
      cbn [shr_m loc_of_shr_record round_nearest_even]; lia.
  - destruct (Z.eqb_spec (2 * rho - P) 0) as [E | NE];
      destruct r, s; cbn [Z.b2z] in Hc; try lia;
      cbn [shr_m loc_of_shr_record round_nearest_even];
      try destruct (Z.even m); lia.
Qed.

(** Rounding moves a value by at most half of the last place kept. *)
Lemma rval_error (v : Z) : 0 <= v -> 2 * Z.abs (rval v - v) <= 2 ^ width v.
Proof.
  intros Hv. pose proof (width_ge v) as Hw.
  destruct (rne_decision v Hv) as (Hor & Hdown & Hup). cbv zeta in *.
  unfold rval.
  pose proof (pow2_pos (width v) ltac:(lia)) as HP.
  set (P := 2 ^ width v) in *.
  pose proof (Z.div_mod v P ltac:(lia)) as Hdm.
  pose proof (Z.mod_pos_bound v P HP) as Hr.
  set (N := rne _) in *.
  set (m := v / P) in *. set (rho := v mod P) in *.
  destruct Hor as [E | E]; rewrite E.
  - assert (2 * rho <= P) by lia.
    replace (m * P - v) with (- rho) by lia. rewrite Z.abs_opp, Z.abs_eq; lia.
  - assert (P <= 2 * rho) by lia.
    replace ((m + 1) * P - v) with (P - rho) by lia. rewrite Z.abs_eq; lia.
Qed.

(** ** Comparing floats *)

Lemma nonneg_finite_inv (s : bool) (m : positive) (e : Z) :
  nonneg (S754_finite s m e) = true ->
  s = false /\ fexp (Zdigits2 (Zpos m) + e) = e /\ e <= 971.
Proof.
  destruct s; cbn [nonneg]; [discriminate |].
  intros H. apply valid_finite_iff in H. split; [reflexivity | exact H].
Qed.

Lemma ival_finite_pos (m : positive) (e : Z) :
  -1074 <= e -> 0 < ival (S754_finite false m e).
Proof.
  intros He. cbn [ival cond_Zopp]. unfold scale.
  pose proof (pow2_pos (e + 1074) ltac:(lia)). nia.
Qed.

Lemma nonneg_ival (x : float) : nonneg x = true -> 0 <= ival x.
Proof.
  intros H. destruct x as [s | s | | s m e]; try discriminate H.
  - cbn [ival]. lia.
  - apply nonneg_finite_inv in H. destruct H as (-> & Hc & _).
    pose proof (canonical_facts m e Hc) as (He & _).
    pose proof (ival_finite_pos m e He). lia.
Qed.

Lemma canonical_lt (m1 m2 : positive) (e1 e2 : Z) :
  fexp (Zdigits2 (Zpos m1) + e1) = e1 ->
  fexp (Zdigits2 (Zpos m2) + e2) = e2 ->
  e1 < e2 ->
  Zpos m1 * 2 ^ (e1 + scale) < Zpos m2 * 2 ^ (e2 + scale).
Proof.
  intros H1 H2 Hlt. unfold scale.
  pose proof (canonical_facts m1 e1 H1) as (He1 & Hm1 & _).
  pose proof (canonical_facts m2 e2 H2) as (He2 & _ & Hm2).
  specialize (Hm2 ltac:(lia)).
  pose proof (pow2_pos (e1 + 1074) ltac:(lia)) as Hp1.
  pose proof (pow2_pos (e2 + 1074) ltac:(lia)) as Hp2.
  apply Z.lt_le_trans with (2 ^ 53 * 2 ^ (e1 + 1074)); [nia |].
  apply Z.le_trans with (2 ^ 52 * 2 ^ (e2 + 1074)); [| nia].
  rewrite <- !pow2_split by lia. apply Z.pow_le_mono_r; lia.
Qed.

Lemma mul_compare_r (x y p : Z) : 0 < p -> (x * p ?= y * p) = (x ?= y).
Proof.
  intros Hp. destruct (Z.compare_spec x y) as [E | L | L].
  - subst. apply Z.compare_refl.
  - apply Z.compare_lt_iff. nia.
  - apply Z.compare_gt_iff. nia.
Qed.

(** On non-negative floats the comparison is the comparison of values. *)
Lemma SFcompare_ival (a b : float) :
  nonneg a = true -> nonneg b = true ->
  SFcompare a b = Some (ival a ?= ival b).
Proof.
  intros Ha Hb.
  destruct a as [sa | sa | | sa ma ea]; try discriminate Ha;
    destruct b as [sb | sb | | sb mb eb]; try discriminate Hb.
  - reflexivity.
  - apply nonneg_finite_inv in Hb. destruct Hb as (-> & Hc & _).
    pose proof (canonical_facts mb eb Hc) as (He & _).
    pose proof (ival_finite_pos mb eb He) as Hpos.
    cbn [SFcompare]. f_equal. symmetry. apply Z.compare_lt_iff.
    exact Hpos.
  - apply nonneg_finite_inv in Ha. destruct Ha as (-> & Hc & _).
    pose proof (canonical_facts ma ea Hc) as (He & _).
    pose proof (ival_finite_pos ma ea He) as Hpos.
    cbn [SFcompare]. f_equal. symmetry. apply Z.compare_gt_iff.
    exact Hpos.
  - apply nonneg_finite_inv in Ha. destruct Ha as (-> & Hca & _).
    apply nonneg_finite_inv in Hb. destruct Hb as (-> & Hcb & _).
    cbn [SFcompare ival cond_Zopp]. f_equal.
    destruct (Z.compare_spec ea eb) as [E | L | L].
    + subst eb.
      pose proof (canonical_facts ma ea Hca) as (He & _).
      rewrite mul_compare_r by (apply pow2_pos; unfold scale; lia).
      reflexivity.
    + symmetry. apply Z.compare_lt_iff. apply canonical_lt; assumption.
    + symmetry. apply Z.compare_gt_iff. apply canonical_lt; assumption.
Qed.

Lemma fle_ival (a b : float) :
  nonneg a = true -> nonneg b = true -> fle a b = (ival a <=? ival b).
Proof.
  intros Ha Hb. unfold fle, SFleb, Z.leb.
  rewrite (SFcompare_ival a b Ha Hb).
  destruct (ival a ?= ival b); reflexivity.
Qed.

Lemma flt_ival (a b : float) :
  nonneg a = true -> nonneg b = true -> flt a b = (ival a <? ival b).
Proof.
  intros Ha Hb. unfold flt, SFltb, Z.ltb.
  rewrite (SFcompare_ival a b Ha Hb).
  destruct (ival a ?= ival b); reflexivity.
Qed.

Lemma ival_fone : ival fone = unit_den.
Proof. reflexivity. Qed.

Lemma nonneg_fone : nonneg fone = true.
Proof. reflexivity. Qed.

Lemma unit_den_pos : 0 < unit_den.
Proof. unfold unit_den, scale. apply pow2_pos. lia. Qed.

Lemma four_unit_den : 4 * unit_den = 2 ^ 1076.
Proof.
  unfold unit_den, scale. change 1076 with (2 + 1074).
  rewrite (pow2_split 2 1074) by lia. reflexivity.
Qed.

Lemma rnd_bound_of_unit (v : Z) : 0 <= v <= 4 * unit_den -> 0 <= v < 2 ^ 2099.
Proof.
  rewrite four_unit_den. intros [H0 H1]. split; [exact H0 |].
  apply Z.le_lt_trans with (2 ^ 1076); [exact H1 |].
  apply Z.pow_lt_mono_r; lia.
Qed.

(** A probability is a non-negative float of value at most one. *)
Lemma valid_p_nonneg (p : float) :
  valid_p p = true -> nonneg p = true /\ 0 <= ival p <= unit_den.
Proof.
  unfold valid_p. rewrite !andb_true_iff. intros [[Hv H0] H1].
  assert (Hn : nonneg p = true).
  { destruct p as [s | s | | s m e].
    - reflexivity.
    - destruct s; [discriminate H0 | discriminate H1].
    - discriminate H0.
    - destruct s; [discriminate H0 | exact Hv]. }
  split; [exact Hn |]. split; [apply nonneg_ival; exact Hn |].
  rewrite (fle_ival p fone Hn nonneg_fone) in H1.
  apply Z.leb_le in H1. rewrite ival_fone in H1. exact H1.
Qed.

Lemma rnd_le_one (v : Z) :
  0 <= v <= 4 * unit_den ->
  nonneg (rnd v) = true /\ 0 <= ival (rnd v) <= unit_den.
Proof.
  intros Hv. pose proof (rnd_bound_of_unit v Hv) as Hb.
  pose proof (rnd_nonneg v Hb) as Hn.
  split; [exact Hn |]. split; [apply nonneg_ival; exact Hn |].
  pose proof (rnd_ival v Hb) as E.
  pose proof (rval_mono v (4 * unit_den) ltac:(lia)) as Hm.
  rewrite <- E in Hm.
  rewrite <- (rnd_ival (4 * unit_den)) in Hm
    by (apply rnd_bound_of_unit; pose proof unit_den_pos; lia).
  rewrite <- ival_fone in Hm at 1.
  unfold fone in Hm at 1. rewrite rnd_repr in Hm.
  - fold fone in Hm. rewrite ival_fone in Hm. lia.
  - reflexivity.
  - fold fone. rewrite ival_fone, four_unit_den. apply Z.pow_lt_mono_r; lia.
Qed.

Lemma rnd_mono (v1 v2 : Z) :
  0 <= v1 <= v2 -> v2 < 2 ^ 2099 -> ival (rnd v1) <= ival (rnd v2).
Proof.
  intros H Hb.
  pose proof (rval_mono v1 v2 H) as Hm.
  rewrite <- !rnd_ival in Hm by lia. lia.
Qed.

Lemma rnd_repr_nonneg (x : float) :
  nonneg x = true -> ival x <= unit_den -> ival (rnd (4 * ival x)) = ival x.
Proof.
  intros Hn Hb. destruct x as [s | s | | s m e]; try discriminate Hn.
  - reflexivity.
  - pose proof (nonneg_finite_inv _ _ _ Hn) as (-> & _).
    cbn [nonneg] in Hn. rewrite rnd_repr; [reflexivity | exact Hn |].
    apply Z.le_lt_trans with (4 * unit_den); [lia |].
    rewrite four_unit_den. apply Z.pow_lt_mono_r; lia.
Qed.

(** ** Division of two ints *)

Lemma new_location_zero (n : Z) : new_location n 0 = loc_Exact.
Proof.
  unfold new_location, new_location_even, new_location_odd.
  destruct (Z.even n); reflexivity.
Qed.

Lemma div_eucl_eq (a b : Z) : Z.div_eucl a b = (a / b, a mod b).
Proof.
  unfold Z.div, Z.modulo. destruct (Z.div_eucl a b). reflexivity.
Qed.

Lemma div_core_eq (s n : Z) :
  0 < s <= n ->
  let e' := fexp (Zdigits2 s - Zdigits2 n) in
  let M := s * 2 ^ (- e') in
  SFdiv_core_binary prec emax s 0 n 0
  = (M / n, e', new_location n (M mod n)).
Proof.
  intros Hs. cbv zeta.
  pose proof (Zdigits2_mono s n ltac:(lia)) as Hd.
  assert (He : fexp (Zdigits2 s - Zdigits2 n) <= -53) by (rewrite fexp_eq; lia).
  unfold SFdiv_core_binary. rewrite !Z.add_0_r.
  change (SpecFloat.fexp prec emax) with fexp.
  replace (Z.min (fexp (Zdigits2 s - Zdigits2 n)) (0 - 0))
    with (fexp (Zdigits2 s - Zdigits2 n)) by lia.
  replace (0 - 0 - fexp (Zdigits2 s - Zdigits2 n))
    with (- fexp (Zdigits2 s - Zdigits2 n)) by lia.
  set (sh := - fexp (Zdigits2 s - Zdigits2 n)) in *.
  assert (Hsh : 0 < sh) by (unfold sh; lia).
  replace (match sh with
           | 0 => s
           | Z.pos _ => Z.shiftl s sh
           | Z.neg _ => 0
           end) with (s * 2 ^ sh).
  - rewrite div_eucl_eq. reflexivity.
  - destruct sh as [| q | q] eqn:E; try lia.
    rewrite Z.shiftl_mul_pow2 by lia. reflexivity.
Qed.

(** The integer [v] that [successes / n] rounds, on the grid of [rnd]. *)
Lemma fdiv_int_rnd (s n : Z) :
  0 < s <= n ->
  let e' := fexp (Zdigits2 s - Zdigits2 n) in
  let M := s * 2 ^ (- e') in
  -1074 <= e' <= -53
  /\ fdiv (int_as_float s) (int_as_float n)
     = rnd ((4 * (M / n) + loc_code (new_location n (M mod n)))
            * 2 ^ (e' + 1074)).
Proof.
  intros Hs. cbv zeta.
  pose proof (div_core_eq s n Hs) as Hcore. cbv zeta in Hcore.
  pose proof (Zdigits2_mono s n ltac:(lia)) as Hd.
  set (e' := fexp (Zdigits2 s - Zdigits2 n)) in *.
  assert (He : -1074 <= e' <= -53) by (unfold e'; rewrite fexp_eq; lia).
  split; [exact He |].
  set (M := s * 2 ^ (- e')) in *.
  pose proof (pow2_pos (- e') ltac:(lia)) as Hp.
  assert (HM : 0 < M) by (unfold M; nia).
  assert (Hq : 0 <= M / n) by (apply Z.div_pos; lia).
  destruct s as [| ms | ms]; try lia. destruct n as [| mn | mn]; try lia.
  unfold fdiv. cbn [int_as_float SFdiv xorb]. rewrite Hcore.
  unfold rnd. apply round_aux_reduce; [exact Hq | lia |].
  destruct (Z.eq_dec e' (-1074)) as [E | NE].
  - rewrite E, fexp_eq. lia.
  - assert (Ee : e' = Zdigits2 (Zpos ms) - Zdigits2 (Zpos mn) - 53)
      by (unfold e'; rewrite fexp_eq; unfold e' in NE; rewrite fexp_eq in NE; lia).
    assert (Hq52 : 2 ^ 52 <= M / Zpos mn).
    { apply Z.div_le_lower_bound; [lia |].
      pose proof (Zdigits2_lower (Zpos ms) ltac:(lia)) as Hlo.
      pose proof (Zdigits2_upper (Zpos mn) ltac:(lia)) as Hup.
      pose proof (Zdigits2_nonneg (Zpos mn)) as Hdn.
      assert (Hds : 1 <= Zdigits2 (Zpos ms)).
      { rewrite Zdigits2_log2 by lia. pose proof (Z.log2_nonneg (Zpos ms)). lia. }
      unfold M.
      apply Z.le_trans with (2 ^ 52 * 2 ^ Zdigits2 (Zpos mn)); [nia |].
      apply Z.le_trans with (2 ^ (Zdigits2 (Zpos ms) - 1) * 2 ^ (- e'));
        [| apply Z.mul_le_mono_nonneg_r; lia].
      rewrite <- !pow2_split by lia.
      apply Z.pow_le_mono_r; lia. }
    assert (Hdq : 53 <= Zdigits2 (M / Zpos mn)).
    { destruct (Zdigits2_ge_iff (M / Zpos mn) 53 ltac:(lia)) as [H | H];
        [apply H; exact Hq52 | lia]. }
    rewrite fexp_eq. lia.
Qed.

Lemma fdiv_int_zero (n : Z) :
  0 < n -> fdiv (int_as_float 0) (int_as_float n) = fzero.
Proof. intros Hn. destruct n; try lia. reflexivity. Qed.

(** The rounded integer is at most one, and is the exact quotient when the
    division leaves no remainder. *)
Lemma quotient_grid_bound (s n e' : Z) :
  0 < s <= n -> -1074 <= e' <= 0 ->
  let M := s * 2 ^ (- e') in
  0 <= (4 * (M / n) + loc_code (new_location n (M mod n))) * 2 ^ (e' + 1074)
    <= 4 * unit_den.
Proof.
  intros Hs He. cbv zeta.
  pose proof (pow2_pos (- e') ltac:(lia)) as Hp.
  pose proof (pow2_pos (e' + 1074) ltac:(lia)) as Hk.
  set (P := 2 ^ (- e')) in *. set (M := s * P).
  pose proof (Z.div_mod M n ltac:(lia)) as Hdm.
  pose proof (Z.mod_pos_bound M n ltac:(lia)) as Hr.
  assert (Hq0 : 0 <= M / n) by (apply Z.div_pos; unfold M; nia).
  pose proof (loc_code_range (new_location n (M mod n))) as Hc.
  assert (HqP : M / n <= P) by (unfold M in *; nia).
  assert (Hsum : 4 * (M / n) + loc_code (new_location n (M mod n)) <= 4 * P).
  { destruct (Z.eq_dec (M / n) P) as [E | NE]; [| lia].
    assert (M mod n = 0) by (unfold M in *; nia).
    replace (M mod n) with 0 by lia. rewrite new_location_zero.
    cbn [loc_code]. lia. }
  assert (HP : P * 2 ^ (e' + 1074) = unit_den).
  { unfold P, unit_den, scale. rewrite <- pow2_split by lia. f_equal. lia. }
  split; [nia |].
  apply Z.le_trans with (4 * P * 2 ^ (e' + 1074)); [| lia].
  apply Z.mul_le_mono_nonneg_r; lia.
Qed.

Lemma fdiv_int_unit (s n : Z) :
  0 <= s <= n -> 0 < n ->
  exists v, 0 <= v <= 4 * unit_den
            /\ fdiv (int_as_float s) (int_as_float n) = rnd v.
Proof.
  intros Hs Hn. destruct (Z.eq_dec s 0) as [-> | Hne].
  - exists 0. pose proof unit_den_pos. split; [lia |].
    rewrite fdiv_int_zero by exact Hn. symmetry. exact rnd_zero.
  - destruct (fdiv_int_rnd s n ltac:(lia)) as [He Hf]. cbv zeta in He, Hf.
    eexists. split; [| exact Hf].
    apply quotient_grid_bound; lia.
Qed.

(** ** Subtraction of two floats *)

Lemma fsub_finite (ma mb : positive) (ea eb : Z) :
  -1074 <= ea -> -1074 <= eb ->
  exists d,
    d * 2 ^ (Z.min ea eb + 1074)
    = ival (S754_finite false ma ea) - ival (S754_finite false mb eb)
    /\ fsub (S754_finite false ma ea) (S754_finite false mb eb)
       = binary_normalize prec emax d (Z.min ea eb) false.
Proof.
  intros Ha Hb. set (ez := Z.min ea eb).
  exists (Zpos ma * 2 ^ (ea - ez) - Zpos mb * 2 ^ (eb - ez)).
  split.
  - cbn [ival cond_Zopp]. unfold scale.
    rewrite Z.mul_sub_distr_r, <- !Z.mul_assoc, <- !pow2_split
      by (unfold ez; lia).
    f_equal; f_equal; f_equal; lia.
  - unfold fsub. cbn [SFsub cond_Zopp]. fold ez.
    destruct (shl_align_spec ma ea ez) as [_ ->].
    destruct (shl_align_spec mb eb ez) as [_ ->].
    replace (Z.min ea ez) with ez by (unfold ez; lia).
    replace (Z.min eb ez) with ez by (unfold ez; lia).
    reflexivity.
Qed.

Lemma abs_scale (d k : Z) : 0 <= k -> Z.abs d * 2 ^ k = Z.abs (d * 2 ^ k).
Proof.
  intros Hk. pose proof (pow2_pos k Hk). rewrite Z.abs_mul.
  rewrite (Z.abs_eq (2 ^ k)) by lia. reflexivity.
Qed.

(** [abs(a - b)] rounds the distance of the two values. *)
Lemma fsub_abs_rnd (a b : float) :
  nonneg a = true -> nonneg b = true ->
  ival a <= unit_den -> ival b <= unit_den ->
  fabs (fsub a b) = rnd (4 * Z.abs (ival a - ival b)).
Proof.
  intros Ha Hb Hua Hub.
  assert (Hlt : 4 * unit_den < 2 ^ 2099)
    by (rewrite four_unit_den; apply Z.pow_lt_mono_r; lia).
  destruct a as [sa | sa | | sa ma ea]; try discriminate Ha;
    destruct b as [sb | sb | | sb mb eb]; try discriminate Hb.
  - destruct sa, sb; reflexivity.
  - pose proof (nonneg_finite_inv _ _ _ Hb) as (-> & Hc & _).
    pose proof (canonical_facts mb eb Hc) as (He & _).
    pose proof (ival_finite_pos mb eb He) as Hpos.
    cbn [nonneg] in Hb.
    replace (ival (S754_zero sa)) with 0 by reflexivity.
    rewrite Z.sub_0_l, Z.abs_opp, Z.abs_eq by lia.
    rewrite rnd_repr by (exact Hb || lia). reflexivity.
  - pose proof (nonneg_finite_inv _ _ _ Ha) as (-> & Hc & _).
    pose proof (canonical_facts ma ea Hc) as (He & _).
    pose proof (ival_finite_pos ma ea He) as Hpos.
    cbn [nonneg] in Ha.
    replace (ival (S754_zero sb)) with 0 by reflexivity.
    rewrite Z.sub_0_r, Z.abs_eq by lia.
    rewrite rnd_repr by (exact Ha || lia). reflexivity.
  - pose proof (nonneg_finite_inv _ _ _ Ha) as (-> & Hca & _).
    pose proof (nonneg_finite_inv _ _ _ Hb) as (-> & Hcb & _).
    pose proof (canonical_facts ma ea Hca) as (Hea & _).
    pose proof (canonical_facts mb eb Hcb) as (Heb & _).
    destruct (fsub_finite ma mb ea eb Hea Heb) as (d & Hd & ->).
    unfold fabs. rewrite binary_normalize_abs by lia.
    rewrite <- Hd, <- abs_scale by lia. f_equal. lia.
Qed.

(** [a - b] itself, when [a] is a positive float not below [b]. *)
Lemma fsub_rnd (ma : positive) (ea : Z) (b : float) :
  nonneg (S754_finite false ma ea) = true -> nonneg b = true ->
  ival b <= ival (S754_finite false ma ea) ->
  ival (S754_finite false ma ea) <= unit_den ->
  fsub (S754_finite false ma ea) b
  = rnd (4 * (ival (S754_finite false ma ea) - ival b)).
Proof.
  intros Ha Hb Hba Hua.
  assert (Hlt : 4 * unit_den < 2 ^ 2099)
    by (rewrite four_unit_den; apply Z.pow_lt_mono_r; lia).
  pose proof (nonneg_finite_inv _ _ _ Ha) as (_ & Hca & _).
  pose proof (canonical_facts ma ea Hca) as (Hea & _).
  destruct b as [sb | sb | | sb mb eb]; try discriminate Hb.
  - replace (ival (S754_zero sb)) with 0 by reflexivity.
    rewrite Z.sub_0_r.
    rewrite rnd_repr by (exact Ha || lia). reflexivity.
  - pose proof (nonneg_finite_inv _ _ _ Hb) as (-> & Hcb & _).
    pose proof (canonical_facts mb eb Hcb) as (Heb & _).
    destruct (fsub_finite ma mb ea eb Hea Heb) as (d & Hd & E).
    rewrite E.
    pose proof (pow2_pos (Z.min ea eb + 1074) ltac:(lia)) as Hp.
    rewrite binary_normalize_rnd by (lia || nia).
    rewrite <- Hd. f_equal. lia.
Qed.

(** ** Bounds on the recorded values *)

Lemma frequency_unit (s n : Z) :
  0 <= s <= n -> 0 < n ->
  let f := fdiv (int_as_float s) (int_as_float n) in
  nonneg f = true /\ 0 <= ival f <= unit_den.
Proof.
  intros Hs Hn. cbv zeta.
  destruct (fdiv_int_unit s n Hs Hn) as (v & Hv & ->).
  apply rnd_le_one. exact Hv.
Qed.

Lemma one_minus_p (p : float) :
  nonneg p = true -> ival p <= unit_den ->
  fsub fone p = rnd (4 * (unit_den - ival p))
  /\ nonneg (fsub fone p) = true
  /\ ival (fsub fone p) <= unit_den.
Proof.
  intros Hp Hu. pose proof (nonneg_ival p Hp) as H0.
  assert (E : fsub fone p = rnd (4 * (unit_den - ival p))).
  { unfold fone. rewrite fsub_rnd; fold fone;
      rewrite ?ival_fone; try reflexivity; try assumption; lia. }
  rewrite E. split; [reflexivity |].
  pose proof (rnd_le_one (4 * (unit_den - ival p)) ltac:(lia)) as [Hn Hb].
  split; [exact Hn | lia].
Qed.

Lemma max_ival (a b : float) :
  nonneg a = true -> nonneg b = true ->
  nonneg (Py.max a b) = true /\ ival (Py.max a b) = Z.max (ival a) (ival b).
Proof.
  intros Ha Hb. unfold Py.max. rewrite (flt_ival a b Ha Hb).
  destruct (ival a <? ival b) eqn:E.
  - apply Z.ltb_lt in E. split; [exact Hb | lia].
  - apply Z.ltb_ge in E. split; [exact Ha | lia].
Qed.

Lemma deviation_bound (f p : float) :
  nonneg f = true -> ival f <= unit_den ->
  nonneg p = true -> ival p <= unit_den ->
  let d := fabs (fsub f p) in
  nonneg d = true
  /\ ival d <= ival (Py.max p (fsub fone p))
  /\ nonneg (Py.max p (fsub fone p)) = true.
Proof.
  intros Hf Huf Hp Hup. cbv zeta.
  pose proof (nonneg_ival f Hf) as Hf0.
  pose proof (nonneg_ival p Hp) as Hp0.
  destruct (one_minus_p p Hp Hup) as (Eq & Hnq & Huq).
  destruct (max_ival p (fsub fone p) Hp Hnq) as [Hnm Em].
  rewrite (fsub_abs_rnd f p Hf Hp Huf Hup).
  assert (Hv : 0 <= 4 * Z.abs (ival f - ival p) <= 4 * unit_den) by lia.
  destruct (rnd_le_one _ Hv) as [Hnd _].
  split; [exact Hnd |]. split; [| exact Hnm].
  rewrite Em.
  assert (Hlt : 4 * unit_den < 2 ^ 2099)
    by (rewrite four_unit_den; apply Z.pow_lt_mono_r; lia).
  destruct (Z_le_dec (ival p) (ival f)) as [Hge | Hlt'].
  - apply Z.le_trans with (ival (fsub fone p)); [| lia].
    rewrite Eq. apply rnd_mono; lia.
  - apply Z.le_trans with (ival p); [| lia].
    rewrite <- (rnd_repr_nonneg p Hp Hup) at 2.
    apply rnd_mono; lia.
Qed.

(** ** The exact values of the floats *)

Lemma unit_den_id : Zpos (Z.to_pos unit_den) = unit_den.
Proof. apply Z2Pos.id. exact unit_den_pos. Qed.

Lemma F2Q_le (a b : float) : ival a <= ival b <-> (F2Q a <= F2Q b)%Q.
Proof.
  unfold F2Q, Qle. cbn [Qnum Qden]. rewrite unit_den_id.
  pose proof unit_den_pos. split; intros; nia.
Qed.

Lemma F2Q_zero : (F2Q fzero == 0)%Q.
Proof. reflexivity. Qed.

Lemma F2Q_one : (F2Q fone == 1)%Q.
Proof. apply Qeq_bool_eq. vm_compute. reflexivity. Qed.

(** [1.0 - p] lies at most [2^-54] above the exact difference. *)
Lemma one_minus_p_error (p : float) :
  nonneg p = true -> ival p <= unit_den ->
  2 ^ 54 * (ival (fsub fone p) - (unit_den - ival p)) <= unit_den.
Proof.
  intros Hp Hu. pose proof (nonneg_ival p Hp) as H0.
  pose proof unit_den_pos as HU.
  destruct (one_minus_p p Hp Hu) as (E & _ & _). rewrite E.
  destruct (Z.eq_dec (ival p) 0) as [Ez | Nz].
  - rewrite Ez, Z.sub_0_r. rewrite <- ival_fone.
    rewrite (rnd_repr_nonneg fone nonneg_fone) by (rewrite ival_fone; lia).
    rewrite ival_fone, Z.sub_diag, Z.mul_0_r. lia.
  - set (v := 4 * (unit_den - ival p)).
    assert (Hv : 0 <= v < 2 ^ 1076)
      by (unfold v; rewrite <- four_unit_den; lia).
    assert (Hw : width v <= 1023) by (apply (width_below v 1076); lia).
    pose proof (width_ge v) as Hw2.
    pose proof (rval_error v ltac:(lia)) as He.
    rewrite <- rnd_ival in He
      by (split; [lia |]; apply Z.lt_trans with (2 ^ 1076); [lia |];
          apply Z.pow_lt_mono_r; lia).
    assert (Hpow : 2 ^ width v <= 2 ^ 1023) by (apply Z.pow_le_mono_r; lia).
    assert (HUe : unit_den = 2 ^ 51 * 2 ^ 1023).
    { unfold unit_den, scale. rewrite <- pow2_split by lia. reflexivity. }
    assert (Ev : v = 4 * (unit_den - ival p)) by reflexivity.
    assert (H8 : 8 * (ival (rnd v) - (unit_den - ival p)) <= 2 ^ 1023)
      by lia.
    rewrite HUe at 2. change (2 ^ 54) with (2 ^ 51 * 8). nia.
Qed.

(** From one half on, [1.0 - p] does not exceed [p]. *)
Lemma one_minus_p_small (p : float) :
  nonneg p = true -> ival p <= unit_den -> unit_den <= 2 * ival p ->
  ival (fsub fone p) <= ival p.
Proof.
  intros Hp Hu Hh. pose proof (nonneg_ival p Hp) as H0.
  destruct (one_minus_p p Hp Hu) as (E & _ & _). rewrite E.
  assert (Eh : 2 * ival fhalf = unit_den) by reflexivity.
  apply Z.le_trans with (ival (rnd (4 * ival fhalf))).
  - apply rnd_mono; [lia |].
    apply Z.le_lt_trans with (4 * unit_den); [lia |].
    rewrite four_unit_den. apply Z.pow_lt_mono_r; lia.
  - rewrite (rnd_repr_nonneg fhalf eq_refl) by lia. lia.
Qed.

(** The exact bound, up to the rounding of [1.0 - p]. *)
Lemma exact_deviation_bound (d p : float) :
  0 <= ival p <= unit_den ->
  ival d <= Z.max (ival p) (ival (fsub fone p)) ->
  2 ^ 54 * (ival (fsub fone p) - (unit_den - ival p)) <= unit_den ->
  (F2Q d <= Qmax (F2Q p) (1 - F2Q p) + (1 # 18014398509481984))%Q.
Proof.
  intros Hp Hd He. pose proof unit_den_pos as HU.
  destruct (Z_le_dec (ival d) (ival p)) as [L | L].
  - apply Qle_trans with (F2Q p); [apply F2Q_le; exact L |].
    apply Qle_trans with (Qmax (F2Q p) (1 - F2Q p)); [apply Q.le_max_l |].
    rewrite <- (Qplus_0_r (Qmax (F2Q p) (1 - F2Q p))) at 1.
    apply Qplus_le_compat; [apply Qle_refl | discriminate].
  - apply Qle_trans with ((1 - F2Q p) + (1 # 18014398509481984))%Q.
    + unfold F2Q, Qle, Qminus, Qplus, Qopp. cbn [Qnum Qden].
      rewrite !Pos2Z.inj_mul, unit_den_id.
      change (Z.pos 18014398509481984) with (2 ^ 54). change (Z.pos 1) with 1.
      assert (Hd' : ival d <= ival (fsub fone p)) by lia.
      assert (H54 : 0 < 2 ^ 54) by (apply pow2_pos; lia).
      assert (Hk : 2 ^ 54 * (ival d - (unit_den - ival p)) <= unit_den) by nia.
      set (c := 2 ^ 54) in *. set (U := unit_den) in *.
      set (x := ival d) in *. set (y := ival p) in *.
      replace (x * (1 * U * c)) with ((c * x) * U) by ring.
      replace (((1 * U + - y * 1) * c + 1 * (1 * U)) * U)
        with ((c * (U - y) + U) * U) by ring.
      apply Z.mul_le_mono_nonneg_r; lia.
    + apply Qplus_le_compat; [apply Q.le_max_r | apply Qle_refl].
Qed.

(** ** The support of the binomial distribution *)

Lemma choose_nonneg (n : nat) : forall k, 0 <= choose n k.
Proof.
  induction n as [| n IH]; intros [| k]; cbn [choose]; try lia.
  pose proof (IH k). pose proof (IH (S k)). lia.
Qed.

Lemma choose_pos (n : nat) : forall k, (k <= n)%nat -> 0 < choose n k.
Proof.
  induction n as [| n IH]; intros [| k] Hk; cbn [choose]; try lia.
  pose proof (IH k ltac:(lia)). pose proof (choose_nonneg n (S k)). lia.
Qed.

Lemma in_support_range (n : Z) (p : float) (k : Z) :
  in_support n p k -> 0 <= k <= n.
Proof.
  unfold in_support, binomial_weight.
  destruct ((0 <=? k) && (k <=? n)) eqn:E; [| lia].
  apply andb_true_iff in E. destruct E as [E1 E2].
  apply Z.leb_le in E1. apply Z.leb_le in E2. lia.
Qed.

Lemma in_support_zero (n : Z) (p : float) (k : Z) :
  ival p = 0 -> in_support n p k -> k = 0.
Proof.
  intros Hp H. pose proof (in_support_range n p k H) as Hr.
  unfold in_support, binomial_weight in H.
  destruct ((0 <=? k) && (k <=? n)); [| lia].
  destruct (Z.eq_dec k 0) as [E | NE]; [exact E |].
  rewrite Hp, Z.pow_0_l in H by lia. lia.
Qed.

Lemma in_support_one (n : Z) (p : float) (k : Z) :
  ival p = unit_den -> in_support n p k -> k = n.
Proof.
  intros Hp H. pose proof (in_support_range n p k H) as Hr.
  unfold in_support, binomial_weight in H.
  destruct ((0 <=? k) && (k <=? n)); [| lia].
  destruct (Z.eq_dec k n) as [E | NE]; [exact E |].
  rewrite Hp, Z.sub_diag, (Z.pow_0_l (n - k)) in H by lia. lia.
Qed.

Lemma in_support_intro (n : Z) (p : float) (k : Z) :
  0 <= k <= n -> 0 <= ival p <= unit_den ->
  (ival p = 0 -> k = 0) -> (ival p = unit_den -> k = n) ->
  in_support n p k.
Proof.
  intros Hk Hp H0 H1. unfold in_support, binomial_weight.
  replace ((0 <=? k) && (k <=? n)) with true
    by (symmetry; apply andb_true_iff; split; apply Z.leb_le; lia).
  pose proof (choose_pos (Z.to_nat n) (Z.to_nat k) ltac:(lia)) as Hc.
  assert (Ha : 0 < ival p ^ k).
  { destruct (Z.eq_dec (ival p) 0) as [E | NE].
    - rewrite (H0 E). rewrite Z.pow_0_r. lia.
    - apply Z.pow_pos_nonneg; lia. }
  assert (Hb : 0 < (unit_den - ival p) ^ (n - k)).
  { destruct (Z.eq_dec (ival p) unit_den) as [E | NE].
    - rewrite (H1 E), Z.sub_diag. rewrite Z.pow_0_r. lia.
    - apply Z.pow_pos_nonneg; lia. }
  nia.
Qed.

(** ** The concrete generator honours the contract *)

Lemma Lcg_next_range (s : Z) : 0 <= Lcg.next s < 2 ^ 64.
Proof. unfold Lcg.next. apply Z.mod_pos_bound. lia. Qed.

Lemma Lcg_bernoulli_never (s t : Z) : 0 <= s -> t <= 0 -> Lcg.bernoulli s t = false.
Proof.
  intros Hs Ht. unfold Lcg.bernoulli. apply Z.ltb_ge.
  rewrite Z.shiftl_mul_pow2, Z.shiftr_div_pow2 by lia.
  assert (0 <= s / 2 ^ 11) by (apply Z.div_pos; lia).
  pose proof (pow2_pos 1021 ltac:(lia)). nia.
Qed.

Lemma Lcg_bernoulli_always (s t : Z) :
  0 <= s < 2 ^ 64 -> unit_den <= t -> Lcg.bernoulli s t = true.
Proof.
  intros Hs Ht. unfold Lcg.bernoulli. apply Z.ltb_lt.
  rewrite Z.shiftl_mul_pow2, Z.shiftr_div_pow2 by lia.
  assert (Hq : s / 2 ^ 11 < 2 ^ 53).
  { apply Z.div_lt_upper_bound; [lia |].
    change (2 ^ 11 * 2 ^ 53) with (2 ^ 64). lia. }
  assert (0 <= s / 2 ^ 11) by (apply Z.div_pos; lia).
  apply Z.lt_le_trans with unit_den; [| exact Ht].
  unfold unit_den, scale. change 1074 with (53 + 1021).
  rewrite (pow2_split 53 1021) by lia.
  pose proof (pow2_pos 1021 ltac:(lia)). nia.
Qed.

Lemma Lcg_count_spec (k : nat) : forall (s t acc : Z),
  let r := fst (Lcg.count k s t acc) in
  acc <= r <= acc + Z.of_nat k
  /\ (t <= 0 -> r = acc)
  /\ (unit_den <= t -> r = acc + Z.of_nat k).
Proof.
  induction k as [| k IH]; intros s t acc; cbv zeta.
  - cbn [Lcg.count fst]. lia.
  - cbn [Lcg.count]. pose proof (Lcg_next_range s) as Hn.
    specialize (IH (Lcg.next s) t
                   (if Lcg.bernoulli (Lcg.next s) t then acc + 1 else acc)).
    cbv zeta in IH. destruct IH as (Hr & H0 & H1).
    rewrite Nat2Z.inj_succ.
    set (acc' := if Lcg.bernoulli (Lcg.next s) t then acc + 1 else acc) in *.
    assert (Ha : acc <= acc' <= acc + 1)
      by (unfold acc'; destruct (Lcg.bernoulli (Lcg.next s) t); lia).
    split; [lia | split].
    + intros Ht. rewrite (H0 Ht). unfold acc'.
      rewrite (Lcg_bernoulli_never (Lcg.next s) t ltac:(lia) Ht).
      reflexivity.
    + intros Ht. rewrite (H1 Ht). unfold acc'.
      rewrite (Lcg_bernoulli_always (Lcg.next s) t Hn Ht). lia.
Qed.

Lemma Lcg_lawful : lawful Lcg.generator.
Proof.
  intros rng n p Hp Hn.
  destruct (valid_p_nonneg p Hp) as [_ Hb].
  change (random_binomial rng n p) with (Lcg.sample rng n p).
  unfold Lcg.sample.
  pose proof (Lcg_count_spec (Z.to_nat n) rng (ival p) 0) as H.
  cbv zeta in H. destruct H as (Hr & H0 & H1).
  rewrite Z2Nat.id, Z.add_0_l in Hr, H1 by lia.
  apply in_support_intro.
  - exact Hr.
  - exact Hb.
  - intros E. apply H0. lia.
  - intros E. apply H1. lia.
Qed.

(** ** Runs under the sampler's contract *)

Section LawfulRuns.
Context {G : Generator}.

Lemma loop_records p ns : forall rng rows0 rows rng',
  LLN.loop p ns rng rows0 = ret (rows, rng') ->
  exists new,
    rows = rows0 ++ new
    /\ Forall2 (fun '(n, s) r => records p n s r)
               (combine ns (draws p ns rng)) new.
Proof.
  induction ns as [| n ns IH]; intros rng rows0 rows rng' H.
  - injection H as <- _. exists []. rewrite app_nil_r.
    split; [reflexivity | constructor].
  - cbn [LLN.loop] in H.
    apply bind_ret_inv in H. destruct H as [[l g] [Hi H]].
    apply IH in H. destruct H as (new & -> & Hall).
    pose proof (iteration_ret_inv _ _ _ _ _ Hi) as (Hb & _ & Hn & Hr & Ha).
    exists (row_of n l :: new). split.
    + rewrite <- app_assoc. reflexivity.
    + cbn [draws]. rewrite Hb. cbn [combine]. constructor; [| exact Hall].
      unfold records, row_of. cbn [row_n row_result row_abs_diff].
      split; [reflexivity |]. split; [| exact Ha].
      rewrite Hr. apply int_truediv_nonzero. exact Hn.
Qed.

Lemma iteration_lawful (HG : lawful G) p rng n :
  valid_p p = true -> 0 < n < 2 ^ 63 ->
  exists l rng',
    LLN.iteration p rng n = ret (l, rng')
    /\ in_support n p (successes l).
Proof.
  intros Hp Hn.
  assert (Ha : admissible n p = true)
    by (apply valid_p_admissible; [exact Hp | lia]).
  destruct (iteration_admissible p rng n Ha ltac:(lia)) as (l & Hi & Hs & _).
  exists l, (snd (random_binomial rng n p)). split; [exact Hi |].
  rewrite Hs. apply HG; [exact Hp | lia].
Qed.

Lemma valid_p_range p :
  valid_p p = true -> fle fzero p && fle p fone = true.
Proof.
  unfold valid_p. rewrite !andb_true_iff. intros [[_ H0] H1].
  split; assumption.
Qed.

End LawfulRuns.

Lemma app_seed_independent {G : Generator} (w : LLN.widgets) (e1 e2 : N) :
  LLN.app w e1 = LLN.app w e2.
Proof. reflexivity. Qed.

(** ** The counts a run draws *)

Section Trace.
Context {G : Generator}.

(** The loop appends, to the rows it starts from, the rows of the locals it
    goes through. *)
Lemma loop_trace p ns : forall rng rows,
  LLN.loop p ns rng rows
  = bind (LLN.trace p ns rng)
         (fun '(ls, rng') =>
            ret (rows ++ map (fun '(n, l) => row_of n l) (combine ns ls),
                 rng')).
Proof.
  induction ns as [| n ns IH]; intros rng rows.
  - cbn [LLN.loop LLN.trace bind ret combine map]. rewrite app_nil_r.
    reflexivity.
  - cbn [LLN.loop LLN.trace].
    destruct (LLN.iteration p rng n) as [e | [l g]]; cbn [bind];
      [reflexivity |].
    rewrite IH.
    destruct (LLN.trace p ns g) as [e | [ls g']]; cbn [bind ret];
      [reflexivity |].
    cbn [combine map]. rewrite <- app_assoc. reflexivity.
Qed.

(** On admissible, non-zero sample sizes the trace returns, and the counts
    it holds are the sampler's draws. *)
Lemma trace_total p ns : forall rng,
  Forall (fun n => admissible n p = true /\ n <> 0) ns ->
  exists ls rng',
    LLN.trace p ns rng = ret (ls, rng')
    /\ map successes ls = draws p ns rng
    /\ map (fun '(n, l) => row_of n l) (combine ns ls)
       = trial_rows p ns (draws p ns rng).
Proof.
  induction ns as [| n ns IH]; intros rng Hns.
  - exists [], rng. repeat split.
  - inversion Hns as [| ? ? [Ha Hn] Hrest]; subst.
    destruct (iteration_admissible p rng n Ha Hn) as (l & Hi & Hs & Hr).
    destruct (IH (snd (random_binomial rng n p)) Hrest)
      as (ls & rng' & Ht & Hm & Hrows).
    exists (l :: ls), rng'. cbn [LLN.trace]. rewrite Hi. cbn [bind ret].
    rewrite Ht. cbn [bind ret]. split; [reflexivity |].
    cbn [draws map combine]. rewrite Hs, Hm, Hr, Hrows.
    destruct (random_binomial rng n p) as [s g]. cbn [fst snd trial_rows].
    split; reflexivity.
Qed.

End Trace.

Lemma seeded_rng {G : Generator} (w : LLN.widgets) (e : N) :
  0 <= LLN.seed_of w ->
  default_rng (LLN.seed_argument w) e = ret (seed_bitgen (LLN.seed_of w)).
Proof.
  intros Hs. unfold LLN.seed_argument. cbn [default_rng].
  destruct (LLN.seed_of w <? 0) eqn:E; [apply Z.ltb_lt in E; lia |].
  reflexivity.
Qed.

(** A run of the seeded script on valid inputs, in terms of its seed. *)
Lemma seeded_run {G : Generator} (w : LLN.widgets) (e : N) :
  LLN.button w = true -> 0 <= LLN.seed_of w ->
  fle fzero (LLN.slider w) && fle (LLN.slider w) fone = true ->
  let ns := LLN.n_values (LLN.checkbox w) in
  let ss := draws (LLN.slider w) ns (seed_bitgen (LLN.seed_of w)) in
  LLN.drawn w e = ret ss
  /\ LLN.app w e = ret (Results (trial_rows (LLN.slider w) ns ss)).
Proof.
  intros Hb Hs Hp. cbv zeta.
  pose proof (n_values_admissible (LLN.slider w) (LLN.checkbox w) Hp) as Hns.
  destruct (trace_total (LLN.slider w) _
              (seed_bitgen (LLN.seed_of w)) Hns)
    as (ls & rng' & Ht & Hm & Hrows).
  split.
  - unfold LLN.drawn. rewrite Hb, (seeded_rng w e Hs). cbn [bind ret].
    rewrite Ht. cbn [bind ret]. rewrite Hm. reflexivity.
  - unfold LLN.app. rewrite Hb, (seeded_rng w e Hs). cbn [bind ret].
    rewrite loop_trace, Ht. cbn [bind ret app]. rewrite Hrows. reflexivity.
Qed.

(** * The claims *)

(** C1. Every row a run produces records, for its sample size [n] and the
    count [successes] the sampler drew for it, the frequency
    [successes / n] and the deviation [abs(result - p)]; this holds for the
    loop of either script. *)
Theorem C1_rows_record_frequency_and_deviation
  {G : Generator} (p : float) (ns : list Z) (rng : bitgen)
  (rows : list row) (rng' : bitgen) :
  LLN.loop p ns rng [] = ret (rows, rng')
  \/ LLN3.loop p ns rng [] = ret (rows, rng') ->
  Forall2 (fun '(n, s) r => records p n s r)
          (combine ns (draws p ns rng)) rows.
Proof.
  intros H.
  assert (H' : LLN.loop p ns rng [] = ret (rows, rng'))
    by (destruct H as [H | H]; [exact H | rewrite <- loop3_loop; exact H]).
  apply loop_records in H'. destruct H' as (new & -> & Hall). exact Hall.
Qed.

Lemma C1_witness :
  Forall2 (fun '(n, s) r => records fhalf n s r)
          (combine [10; 50] (draws (G := Lcg.generator) fhalf [10; 50] 42))
          [trial_row fhalf 10 7; trial_row fhalf 50 29].
Proof.
  apply (C1_rows_record_frequency_and_deviation
           (G := Lcg.generator) fhalf [10; 50] 42 _ 4897482736489597014).
  left. vm_compute. reflexivity.
Defined.

(** C2, as stated, fails: with [p = 0.1], [n = 10] and [successes = 10] the
    frequency is [1.0] and the recorded deviation is the float [1.0 - 0.1],
    which is greater than both [p] and the exact difference [1 - p]. *)
Lemma C2_counterexample :
  valid_p ftenth = true
  /\ int_truediv 10 10 = ret fone
  /\ ~ (F2Q (fabs (fsub fone ftenth))
        <= Qmax (F2Q ftenth) (1 - F2Q ftenth))%Q.
Proof.
  split; [reflexivity |]. split; [reflexivity |].
  intros H. apply Qle_bool_iff in H. vm_compute in H. discriminate H.
Qed.

(** C2, amended. For a probability [p] in [0, 1], a sample size [n >= 1] and
    a count [0 <= successes <= n], the frequency [successes / n] is computed
    without fault and lies between 0 and 1, as Python compares it and as an
    exact number.  The deviation [abs(result - p)] is not negative and is at
    most [max(p, 1.0 - p)] with the difference [1.0 - p] taken in floating
    point; against the exact [1 - p] it is at most [max(p, 1 - p) + 2^-54],
    and at most [max(p, 1 - p)] itself when [p] is one half or more. *)
Theorem C2_frequency_and_deviation_bounds (p : float) (n s : Z) :
  valid_p p = true -> 1 <= n -> 0 <= s <= n ->
  exists f,
    int_truediv s n = ret f
    /\ fle fzero f = true /\ fle f fone = true
    /\ (0 <= F2Q f <= 1)%Q
    /\ fle fzero (fabs (fsub f p)) = true
    /\ fle (fabs (fsub f p)) (Py.max p (fsub fone p)) = true
    /\ (0 <= F2Q (fabs (fsub f p)))%Q
    /\ (F2Q (fabs (fsub f p))
        <= Qmax (F2Q p) (1 - F2Q p) + (1 # 18014398509481984))%Q
    /\ ((1 # 2 <= F2Q p)%Q ->
        (F2Q (fabs (fsub f p)) <= Qmax (F2Q p) (1 - F2Q p))%Q).
Proof.
  intros Hp Hn Hs. pose proof unit_den_pos as HU.
  destruct (valid_p_nonneg p Hp) as [Hnp Hbp].
  exists (fdiv (int_as_float s) (int_as_float n)).
  split; [apply int_truediv_nonzero; lia |].
  destruct (frequency_unit s n Hs ltac:(lia)) as [Hnf Hbf]. cbv zeta in *.
  set (f := fdiv (int_as_float s) (int_as_float n)) in *.
  destruct (deviation_bound f p Hnf ltac:(lia) Hnp ltac:(lia))
    as (Hnd & Hbd & Hnm).
  cbv zeta in *.
  destruct (one_minus_p p Hnp ltac:(lia)) as (_ & Hnq & _).
  destruct (max_ival p (fsub fone p) Hnp Hnq) as [_ Em].
  rewrite Em in Hbd.
  pose proof (nonneg_ival _ Hnd) as Hd0.
  set (d := fabs (fsub f p)) in *.
  rewrite (fle_ival fzero f eq_refl Hnf), (fle_ival f fone Hnf nonneg_fone).
  rewrite (fle_ival fzero d eq_refl Hnd), (fle_ival d _ Hnd Hnm).
  rewrite Em, ival_fone. change (ival fzero) with 0.
  split; [apply Z.leb_le; lia |]. split; [apply Z.leb_le; lia |].
  split.
  { split.
    - rewrite <- F2Q_zero. apply F2Q_le. change (ival fzero) with 0. lia.
    - rewrite <- F2Q_one. apply F2Q_le. rewrite ival_fone. lia. }
  split; [apply Z.leb_le; lia |]. split; [apply Z.leb_le; lia |].
  split.
  { rewrite <- F2Q_zero. apply F2Q_le. change (ival fzero) with 0. lia. }
  split.
  { apply exact_deviation_bound; [lia | exact Hbd |].
    apply one_minus_p_error; [exact Hnp | lia]. }
  intros Hhalf.
  assert (Hh : unit_den <= 2 * ival p).
  { unfold F2Q, Qle in Hhalf. cbn [Qnum Qden] in Hhalf.
    rewrite unit_den_id in Hhalf. lia. }
  pose proof (one_minus_p_small p Hnp ltac:(lia) Hh) as Hsm.
  apply Qle_trans with (F2Q p); [apply F2Q_le; lia | apply Q.le_max_l].
Qed.

Lemma C2_witness :
  exists f,
    int_truediv 10 10 = ret f
    /\ fle fzero f = true /\ fle f fone = true
    /\ (0 <= F2Q f <= 1)%Q
    /\ fle fzero (fabs (fsub f ftenth)) = true
    /\ fle (fabs (fsub f ftenth)) (Py.max ftenth (fsub fone ftenth))
       = true
    /\ (0 <= F2Q (fabs (fsub f ftenth)))%Q
    /\ (F2Q (fabs (fsub f ftenth))
        <= Qmax (F2Q ftenth) (1 - F2Q ftenth) + (1 # 18014398509481984))%Q
    /\ ((1 # 2 <= F2Q ftenth)%Q ->
        (F2Q (fabs (fsub f ftenth))
         <= Qmax (F2Q ftenth) (1 - F2Q ftenth))%Q).
Proof.
  apply (C2_frequency_and_deviation_bounds ftenth 10 10);
    [reflexivity | lia | lia].
Defined.

(** C3. Two runs of the seeded script with the same seed, the same [p] and
    the same sample sizes return, and the counts [successes] they draw are
    the same list, hence equal position by position, whatever entropy the
    operating system holds at either run and whether the seed was typed or
    left at its default; the tables the two runs show are the table of
    these counts. *)
Theorem C3_seeded_draws_deterministic
  {G : Generator} (w1 w2 : LLN.widgets) (entropy1 entropy2 : N) :
  LLN.button w1 = true -> LLN.button w2 = true ->
  LLN.seed_of w1 = LLN.seed_of w2 ->
  LLN.slider w1 = LLN.slider w2 ->
  LLN.checkbox w1 = LLN.checkbox w2 ->
  0 <= LLN.seed_of w1 ->
  fle fzero (LLN.slider w1) && fle (LLN.slider w1) fone = true ->
  exists ss,
    LLN.drawn w1 entropy1 = ret ss
    /\ LLN.drawn w2 entropy2 = ret ss
    /\ length ss = length (LLN.n_values (LLN.checkbox w1))
    /\ (forall i, nth_error ss i
                  = nth_error (draws (LLN.slider w1)
                                 (LLN.n_values (LLN.checkbox w1))
                                 (seed_bitgen (LLN.seed_of w1))) i)
    /\ LLN.app w1 entropy1
       = ret (Results (trial_rows (LLN.slider w1)
                         (LLN.n_values (LLN.checkbox w1)) ss))
    /\ LLN.app w2 entropy2 = LLN.app w1 entropy1.
Proof.
  intros Hb1 Hb2 Hseed Hp Hc Hs Hv.
  destruct (seeded_run w1 entropy1 Hb1 Hs Hv) as [Hd1 Ha1].
  destruct (seeded_run w2 entropy2 Hb2) as [Hd2 Ha2];
    [rewrite <- Hseed; exact Hs | rewrite <- Hp; exact Hv |].
  cbv zeta in *. rewrite <- Hseed, <- Hp, <- Hc in Hd2, Ha2.
  eexists. split; [exact Hd1 |]. split; [exact Hd2 |].
  split; [apply draws_length |]. split; [reflexivity |].
  split; [exact Ha1 |]. rewrite Ha1, Ha2. reflexivity.
Qed.

Lemma C3_witness :
  exists ss,
    LLN.drawn (G := Lcg.generator)
      {| LLN.slider := fhalf; LLN.number_input := None;
         LLN.checkbox := false; LLN.button := true |} 0
    = ret ss
    /\ LLN.drawn (G := Lcg.generator)
         {| LLN.slider := fhalf; LLN.number_input := Some 42;
            LLN.checkbox := false; LLN.button := true |} 7
       = ret ss
    /\ length ss = length (LLN.n_values false)
    /\ (forall i, nth_error ss i
                  = nth_error (draws (G := Lcg.generator) fhalf
                                 (LLN.n_values false) (seed_bitgen 42)) i)
    /\ LLN.app (G := Lcg.generator)
         {| LLN.slider := fhalf; LLN.number_input := None;
            LLN.checkbox := false; LLN.button := true |} 0
       = ret (Results (trial_rows fhalf (LLN.n_values false) ss))
    /\ LLN.app (G := Lcg.generator)
         {| LLN.slider := fhalf; LLN.number_input := Some 42;
            LLN.checkbox := false; LLN.button := true |} 7
       = LLN.app (G := Lcg.generator)
           {| LLN.slider := fhalf; LLN.number_input := None;
              LLN.checkbox := false; LLN.button := true |} 0.
Proof.
  apply (C3_seeded_draws_deterministic (G := Lcg.generator)
           {| LLN.slider := fhalf; LLN.number_input := None;
              LLN.checkbox := false; LLN.button := true |}
           {| LLN.slider := fhalf; LLN.number_input := Some 42;
              LLN.checkbox := false; LLN.button := true |} 0 7);
    try reflexivity.
  cbn. lia.
Defined.

(** C4. Under the sampler's contract, for every configured sample size [n]
    and every generator state (hence every seed), the iteration with
    [p = 0.0] returns with [successes = 0] and the iteration with [p = 1.0]
    returns with [successes = n]; the two scripts share the iteration. *)
Theorem C4_degenerate_probabilities
  {G : Generator} (HG : lawful G) (include_big_n : bool) (n : Z)
  (rng : bitgen) :
  In n (LLN.n_values include_big_n) ->
  (exists l rng',
      LLN.iteration fzero rng n = ret (l, rng')
      /\ LLN3.iteration fzero rng n = ret (l, rng')
      /\ successes l = 0)
  /\ (exists l rng',
         LLN.iteration fone rng n = ret (l, rng')
         /\ LLN3.iteration fone rng n = ret (l, rng')
         /\ successes l = n).
Proof.
  intros Hin.
  pose proof (n_values_positive include_big_n) as Hall.
  rewrite Forall_forall in Hall. specialize (Hall n Hin).
  split.
  - destruct (iteration_lawful HG fzero rng n eq_refl Hall)
      as (l & rng' & Hi & Hs).
    exists l, rng'. split; [exact Hi |]. split; [exact Hi |].
    apply (in_support_zero n fzero); [reflexivity | exact Hs].
  - destruct (iteration_lawful HG fone rng n eq_refl Hall)
      as (l & rng' & Hi & Hs).
    exists l, rng'. split; [exact Hi |]. split; [exact Hi |].
    apply (in_support_one n fone); [reflexivity | exact Hs].
Qed.

Lemma C4_witness :
  (exists l rng',
      LLN.iteration (G := Lcg.generator) fzero (seed_bitgen 42) 10
      = ret (l, rng')
      /\ LLN3.iteration (G := Lcg.generator) fzero (seed_bitgen 42) 10
         = ret (l, rng')
      /\ successes l = 0)
  /\ (exists l rng',
         LLN.iteration (G := Lcg.generator) fone (seed_bitgen 42) 10
         = ret (l, rng')
         /\ LLN3.iteration (G := Lcg.generator) fone (seed_bitgen 42) 10
            = ret (l, rng')
         /\ successes l = 10).
Proof.
  apply (C4_degenerate_probabilities
           (G := Lcg.generator) Lcg_lawful false 10 (seed_bitgen 42)).
  simpl. left. reflexivity.
Defined.

(** C5. Under the sampler's contract, for a probability [p] in [0, 1] and a
    positive sample size [n] (one a 64-bit integer holds), the iteration
    returns and the [successes] it drew is an integer with
    [0 <= successes <= n]. *)
Theorem C5_successes_in_range
  {G : Generator} (HG : lawful G) (p : float) (n : Z) (rng : bitgen) :
  valid_p p = true -> 0 < n < 2 ^ 63 ->
  exists l rng',
    LLN.iteration p rng n = ret (l, rng') /\ 0 <= successes l <= n.
Proof.
  intros Hp Hn.
  destruct (iteration_lawful HG p rng n Hp Hn) as (l & rng' & Hi & Hs).
  exists l, rng'. split; [exact Hi |].
  apply (in_support_range n p). exact Hs.
Qed.

Lemma C5_witness :
  exists l rng',
    LLN.iteration (G := Lcg.generator) fhalf (seed_bitgen 42) 10
    = ret (l, rng')
    /\ 0 <= successes l <= 10.
Proof.
  apply (C5_successes_in_range
           (G := Lcg.generator) Lcg_lawful fhalf 10 (seed_bitgen 42));
    [reflexivity | lia].
Defined.

(** C6. With [p] in the slider's range, the loop of either script returns
    one row per configured sample size, in the order of [n_values]; and
    [n_values] is [10, 50, 100, 1000], followed by [10_000_000] exactly when
    the checkbox is ticked. *)
Theorem C6_one_row_per_sample_size
  {G : Generator} (p : float) (include_big_n : bool) (rng : bitgen) :
  fle fzero p && fle p fone = true ->
  (exists rows rng',
      LLN.loop p (LLN.n_values include_big_n) rng [] = ret (rows, rng')
      /\ LLN3.loop p (LLN3.n_values include_big_n) rng [] = ret (rows, rng')
      /\ map row_n rows = LLN.n_values include_big_n
      /\ length rows = length (LLN.n_values include_big_n))
  /\ LLN.n_values include_big_n
     = (if include_big_n then [10; 50; 100; 1000; 10000000]
        else [10; 50; 100; 1000])
  /\ LLN3.n_values include_big_n = LLN.n_values include_big_n.
Proof.
  intros Hp. split; [| split; [apply n_values_cases | reflexivity]].
  destruct (loop_total p (LLN.n_values include_big_n) rng []
              (n_values_admissible p include_big_n Hp)) as [rng' Hl].
  cbn [app] in Hl. eexists; exists rng'.
  split; [exact Hl |]. split; [rewrite n_values3_n_values, loop3_loop; exact Hl |].
  assert (Hm : map row_n
                 (trial_rows p (LLN.n_values include_big_n)
                    (draws p (LLN.n_values include_big_n) rng))
               = LLN.n_values include_big_n)
    by (apply trial_rows_sizes, draws_length).
  split; [exact Hm |].
  rewrite <- (length_map row_n
                (trial_rows p (LLN.n_values include_big_n)
                   (draws p (LLN.n_values include_big_n) rng))).
  rewrite Hm. reflexivity.
Qed.

Lemma C6_witness :
  (exists rows rng',
      LLN.loop (G := Lcg.generator) fhalf (LLN.n_values false)
        (seed_bitgen 42) [] = ret (rows, rng')
      /\ LLN3.loop (G := Lcg.generator) fhalf (LLN3.n_values false)
           (seed_bitgen 42) [] = ret (rows, rng')
      /\ map row_n rows = LLN.n_values false
      /\ length rows = length (LLN.n_values false))
  /\ LLN.n_values false = [10; 50; 100; 1000]
  /\ LLN3.n_values false = LLN.n_values false.
Proof.
  apply (C6_one_row_per_sample_size
           (G := Lcg.generator) fhalf false (seed_bitgen 42)).
  reflexivity.
Defined.

(** The eleven quotients [s / 10]. *)
Lemma tenth_rounding (s : Z) :
  0 <= s <= 10 ->
  let f := fdiv (int_as_float s) (int_as_float 10) in
  (Qabs (F2Q f - (s # 10)) <= 1 # 18014398509481984)%Q
  /\ ((F2Q f == s # 10)%Q <-> s = 0 \/ s = 5 \/ s = 10).
Proof.
  intros Hs. cbv zeta.
  assert (Hcases : s = 0 \/ s = 1 \/ s = 2 \/ s = 3 \/ s = 4 \/ s = 5
                   \/ s = 6 \/ s = 7 \/ s = 8 \/ s = 9 \/ s = 10) by lia.
  repeat (destruct Hcases as [-> | Hcases]); try subst s;
    (split;
     [ apply Qle_bool_imp_le; vm_compute; reflexivity
     | split;
       [ intros H; apply Qeq_eq_bool in H; vm_compute in H;
         first [ discriminate H | lia ]
       | intros H;
         first [ apply Qeq_bool_eq; vm_compute; reflexivity | lia ] ] ]).
Qed.

(** C7, as stated, fails: with [p = 0.5], [n = 10] and seed 42 the concrete
    generator draws 7 successes, and the recorded frequency, the float
    [7 / 10], is not the rational 7/10. *)
Lemma C7_counterexample :
  exists l rng',
    LLN.iteration (G := Lcg.generator) fhalf (seed_bitgen 42) 10
    = ret (l, rng')
    /\ successes l = 7
    /\ ~ (F2Q (result l) == successes l # 10)%Q.
Proof.
  eexists. eexists. split; [reflexivity |]. split; [reflexivity |].
  intros H. apply Qeq_eq_bool in H. vm_compute in H. discriminate H.
Qed.

(** C7, amended. Given [p = 0.5] and [n = 10], under the sampler's contract
    the iteration returns with [0 <= successes <= 10]; the recorded frequency
    is the float [successes / 10], which lies within [2^-54] of the rational
    successes/10 and equals it exactly when successes is 0, 5 or 10. *)
Theorem C7_frequency_is_rounded_quotient
  {G : Generator} (HG : lawful G) (rng : bitgen) :
  exists l rng',
    LLN.iteration fhalf rng 10 = ret (l, rng')
    /\ 0 <= successes l <= 10
    /\ int_truediv (successes l) 10 = ret (result l)
    /\ (Qabs (F2Q (result l) - (successes l # 10))
        <= 1 # 18014398509481984)%Q
    /\ ((F2Q (result l) == successes l # 10)%Q
        <-> successes l = 0 \/ successes l = 5 \/ successes l = 10).
Proof.
  destruct (iteration_lawful HG fhalf rng 10 eq_refl ltac:(lia))
    as (l & rng' & Hi & Hs).
  exists l, rng'. split; [exact Hi |].
  apply in_support_range in Hs. split; [exact Hs |].
  apply iteration_ret_inv in Hi. destruct Hi as (_ & _ & _ & Hr & _).
  rewrite Hr. split; [apply int_truediv_nonzero; lia |].
  apply (tenth_rounding (successes l) Hs).
Qed.

Lemma C7_witness :
  exists l rng',
    LLN.iteration (G := Lcg.generator) fhalf (seed_bitgen 42) 10
    = ret (l, rng')
    /\ 0 <= successes l <= 10
    /\ int_truediv (successes l) 10 = ret (result l)
    /\ (Qabs (F2Q (result l) - (successes l # 10))
        <= 1 # 18014398509481984)%Q
    /\ ((F2Q (result l) == successes l # 10)%Q
        <-> successes l = 0 \/ successes l = 5 \/ successes l = 10).
Proof.
  exact (C7_frequency_is_rounded_quotient
           (G := Lcg.generator) Lcg_lawful (seed_bitgen 42)).
Defined.

Lemma app_never_zero_division {G : Generator} (w : LLN.widgets) (e : N) :
  zero_division (LLN.app w e) = false.
Proof.
  unfold LLN.app. destruct (LLN.button w); [| reflexivity].
  destruct (default_rng (LLN.seed_argument w) e) as [ex | rng] eqn:Ed.
  - cbn [LLN.seed_argument default_rng] in Ed.
    destruct (LLN.seed_of w <? 0); [| discriminate Ed].
    injection Ed as <-. reflexivity.
  - cbn [bind].
    pose proof (loop_never_zero_division (LLN.slider w)
                  (LLN.n_values (LLN.checkbox w)) rng []
                  (n_values_nonzero _)) as Hl.
    destruct (LLN.loop _ _ rng []) as [[| |] | [rows g]];
      try reflexivity. exfalso. apply Hl. reflexivity.
Qed.

Lemma app3_never_zero_division {G : Generator} (w : LLN3.widgets) (e : N) :
  zero_division (LLN3.app w e) = false.
Proof.
  unfold LLN3.app. destruct (LLN3.button w); [| reflexivity].
  cbn [default_rng bind ret].
  pose proof (loop_never_zero_division (LLN3.slider w)
                (LLN.n_values (LLN3.checkbox w)) (seed_bitgen (Z.of_N e)) []
                (n_values_nonzero _)) as Hl.
  rewrite n_values3_n_values, loop3_loop.
  destruct (LLN.loop _ _ _ []) as [[| |] | [rows g]];
    try reflexivity. exfalso. apply Hl. reflexivity.
Qed.

(** C8. Every sample size the loop divides by is a positive constant of
    [n_values], so neither script's loop, nor either script as a whole, ever
    ends in [ZeroDivisionError], whatever the inputs and the generator. *)
Theorem C8_division_by_zero_unreachable
  {G : Generator} (p : float) (include_big_n : bool) (rng : bitgen)
  (rows : list row) (w : LLN.widgets) (w3 : LLN3.widgets) (os_entropy : N) :
  Forall (fun n => 0 < n) (LLN.n_values include_big_n)
  /\ Forall (fun n => 0 < n) (LLN3.n_values include_big_n)
  /\ zero_division (LLN.loop p (LLN.n_values include_big_n) rng rows) = false
  /\ zero_division (LLN3.loop p (LLN3.n_values include_big_n) rng rows)
     = false
  /\ zero_division (LLN.app w os_entropy) = false
  /\ zero_division (LLN3.app w3 os_entropy) = false.
Proof.
  assert (Hpos : Forall (fun n => 0 < n) (LLN.n_values include_big_n)).
  { eapply Forall_impl; [| apply n_values_positive]. simpl. intros n Hn. lia. }
  assert (Hl : zero_division
                 (LLN.loop p (LLN.n_values include_big_n) rng rows) = false).
  { pose proof (loop_never_zero_division p (LLN.n_values include_big_n)
                  rng rows (n_values_nonzero _)) as H.
    destruct (LLN.loop _ _ rng rows) as [[| |] | [r g]]; try reflexivity.
    exfalso. apply H. reflexivity. }
  split; [exact Hpos |]. split; [exact Hpos |]. split; [exact Hl |].
  split; [rewrite n_values3_n_values, loop3_loop; exact Hl |].
  split; [apply app_never_zero_division | apply app3_never_zero_division].
Qed.

(** C9. The two scripts configure the same sample sizes and run the same
    loop: from the same generator state, [p] and checkbox they build the same
    rows (or raise the same exception).  The scripts differ in how the
    generator is seeded: the unseeded script, run when the operating system
    hands out entropy [e], shows the page the seeded script shows for seed
    [e]. *)
Theorem C9_scripts_share_the_simulation
  {G : Generator} (p : float) (include_big_n run : bool) (rng : bitgen)
  (rows : list row) (e e' : N) :
  LLN3.n_values include_big_n = LLN.n_values include_big_n
  /\ LLN3.loop p (LLN3.n_values include_big_n) rng rows
     = LLN.loop p (LLN.n_values include_big_n) rng rows
  /\ LLN3.app {| LLN3.slider := p; LLN3.checkbox := include_big_n;
                 LLN3.button := run |} e
     = LLN.app {| LLN.slider := p; LLN.number_input := Some (Z.of_N e);
                  LLN.checkbox := include_big_n; LLN.button := run |} e'.
Proof.
  split; [reflexivity |]. split; [apply loop3_loop |].
  unfold LLN3.app, LLN.app.
  cbn [LLN3.slider LLN3.checkbox LLN3.button LLN.slider LLN.checkbox
       LLN.button LLN.seed_argument LLN.seed_of LLN.number_input default_rng].
  destruct run; [| reflexivity].
  replace (Z.of_N e <? 0) with false by (symmetry; apply Z.ltb_ge; lia).
  cbn [bind ret]. rewrite n_values3_n_values, loop3_loop. reflexivity.
Qed.


(** * Further properties of the scripts *)

(** ** The loop *)

(** X1. Running the loop over two lists of sample sizes laid end to end is
    running it over the first and then, from the generator state and the rows
    this leaves, over the second; an exception of the first part ends the
    whole. *)
Theorem X1_loop_concat
  {G : Generator} (p : float) (ns1 ns2 : list Z) (rng : bitgen)
  (rows : list row) :
  LLN.loop p (ns1 ++ ns2) rng rows
  = ('(rows1, rng1) <- LLN.loop p ns1 rng rows ;;
     LLN.loop p ns2 rng1 rows1)%py.
Proof.
  revert rng rows. induction ns1 as [| n ns1 IH]; intros rng rows.
  - reflexivity.
  - cbn [app LLN.loop].
    destruct (LLN.iteration p rng n) as [e | [l g]]; cbn [bind].
    + reflexivity.
    + apply IH.
Qed.

Lemma loop_concat {G : Generator} p ns1 ns2 rng rows :
  LLN.loop p (ns1 ++ ns2) rng rows
  = ('(rows1, rng1) <- LLN.loop p ns1 rng rows ;;
     LLN.loop p ns2 rng1 rows1)%py.
Proof.
  revert rng rows. induction ns1 as [| n ns1 IH]; intros rng rows.
  - reflexivity.
  - cbn [app LLN.loop].
    destruct (LLN.iteration p rng n) as [e | [l g]]; cbn [bind];
      [reflexivity | apply IH].
Qed.

(** X2. Ticking the checkbox only adds a row: for [p] in the slider's range
    and the same generator state, the run with [10_000_000] included returns
    the rows of the run without it, followed by the one row of the extra
    sample size, whose count is drawn from the state the shorter run
    left. *)
Theorem X2_checkbox_appends_a_row
  {G : Generator} (p : float) (rng : bitgen) :
  fle fzero p && fle p fone = true ->
  exists rows rng4,
    LLN.loop p (LLN.n_values false) rng [] = ret (rows, rng4)
    /\ LLN.loop p (LLN.n_values true) rng []
       = ret (rows ++ [trial_row p 10000000
                         (fst (random_binomial rng4 10000000 p))],
              snd (random_binomial rng4 10000000 p)).
Proof.
  intros Hp.
  destruct (loop_total p (LLN.n_values false) rng []
              (n_values_admissible p false Hp)) as [rng4 H4].
  cbn [app] in H4. eexists. exists rng4. split; [exact H4 |].
  change (LLN.n_values true) with (LLN.n_values false ++ [10000000]).
  rewrite loop_concat, H4. unfold ret at 1. cbn [bind].
  assert (Ha : admissible 10000000 p = true).
  { pose proof (n_values_admissible p true Hp) as Hall.
    rewrite Forall_forall in Hall.
    apply (Hall 10000000). simpl. tauto. }
  destruct (iteration_admissible p rng4 10000000 Ha ltac:(lia))
    as (l & Hi & _ & Hr).
  cbn [LLN.loop]. rewrite Hi. cbn [bind ret]. rewrite Hr. reflexivity.
Qed.

Lemma X2_witness :
  exists rows rng4,
    LLN.loop (G := Lcg.generator) fhalf (LLN.n_values false)
      (seed_bitgen 42) [] = ret (rows, rng4)
    /\ LLN.loop (G := Lcg.generator) fhalf (LLN.n_values true)
         (seed_bitgen 42) []
       = ret (rows ++ [trial_row fhalf 10000000
                         (fst (random_binomial rng4 10000000 fhalf))],
              snd (random_binomial rng4 10000000 fhalf)).
Proof.
  apply (X2_checkbox_appends_a_row (G := Lcg.generator) fhalf (seed_bitgen 42)).
  reflexivity.
Defined.

(** X3. For [p] in the slider's range and sample sizes that fit a 64-bit
    integer and are not negative, the loop ends in [ZeroDivisionError]
    exactly when one of the sizes is 0. *)
Theorem X3_zero_division_iff_zero_size
  {G : Generator} (p : float) (ns : list Z) (rng : bitgen)
  (rows : list row) :
  fle fzero p && fle p fone = true ->
  Forall (fun n => 0 <= n < 2 ^ 63) ns ->
  zero_division (LLN.loop p ns rng rows) = existsb (Z.eqb 0) ns.
Proof.
  intros Hp Hns. apply andb_true_iff in Hp. destruct Hp as [Hp0 Hp1].
  revert rng rows. induction Hns as [| n ns Hn Hns IH]; intros rng rows.
  - reflexivity.
  - assert (Ha : admissible n p = true).
    { unfold admissible. rewrite Hp0, Hp1.
      replace (0 <=? n) with true by (symmetry; apply Z.leb_le; lia).
      replace (n <? 2 ^ 63) with true by (symmetry; apply Z.ltb_lt; lia).
      reflexivity. }
    cbn [LLN.loop existsb].
    destruct (Z.eq_dec n 0) as [-> | Hne].
    + unfold LLN.iteration. rewrite (binomial_admissible _ _ _ Ha).
      destruct (random_binomial rng 0 p) as [s g]. reflexivity.
    + destruct (iteration_admissible p rng n Ha Hne) as (l & Hi & _).
      rewrite Hi. cbn [bind].
      replace (0 =? n) with false by (symmetry; apply Z.eqb_neq; lia).
      apply IH.
Qed.

Lemma X3_witness :
  zero_division
    (LLN.loop (G := Lcg.generator) fhalf [10; 0; 50] (seed_bitgen 42) [])
  = existsb (Z.eqb 0) [10; 0; 50].
Proof.
  apply (X3_zero_division_iff_zero_size
           (G := Lcg.generator) fhalf [10; 0; 50] (seed_bitgen 42) []).
  - reflexivity.
  - repeat constructor; lia.
Defined.

(** ** The scripts as a whole *)

Lemma binomial_rejects {G : Generator} (rng : bitgen) (n : Z) (p : float) :
  fle fzero p && fle p fone = false -> - 2 ^ 63 <= n < 2 ^ 63 ->
  binomial rng n p = raise ValueError.
Proof.
  intros Hp Hn. unfold binomial.
  replace (- 2 ^ 63 <=? n) with true by (symmetry; apply Z.leb_le; lia).
  replace (n <? 2 ^ 63) with true by (symmetry; apply Z.ltb_lt; lia).
  rewrite Hp. reflexivity.
Qed.

Lemma loop_rejects {G : Generator} (p : float) (b : bool) (rng : bitgen)
  (rows : list row) :
  fle fzero p && fle p fone = false ->
  LLN.loop p (LLN.n_values b) rng rows = raise ValueError.
Proof.
  intros Hp. change (LLN.n_values b) with
    (10 :: [50; 100; 1000] ++ (if b then [10000000] else [])).
  cbn [LLN.loop]. unfold LLN.iteration.
  rewrite (binomial_rejects rng 10 p Hp) by lia. reflexivity.
Qed.

(** X4. What the seeded script shows: the prompt while the button has not
    been pressed; [ValueError] when the seed is negative or [p] is not in
    [0, 1]; and otherwise the table whose rows are, for each configured
    sample size in order, the row of the count drawn from the generator
    seeded with the seed. *)
Theorem X4_seeded_script_outcome
  {G : Generator} (w : LLN.widgets) (os_entropy : N) :
  LLN.app w os_entropy
  = let p := LLN.slider w in
    let ns := LLN.n_values (LLN.checkbox w) in
    if negb (LLN.button w) then ret Waiting
    else if LLN.seed_of w <? 0 then raise ValueError
    else if negb (fle fzero p && fle p fone) then raise ValueError
    else ret (Results
                (trial_rows p ns (draws p ns (seed_bitgen (LLN.seed_of w))))).
Proof.
  cbv zeta. unfold LLN.app. destruct (LLN.button w); [| reflexivity].
  cbn [negb LLN.seed_argument default_rng].
  destruct (LLN.seed_of w <? 0); [reflexivity |].
  unfold ret at 1. cbn [bind].
  destruct (fle fzero (LLN.slider w) && fle (LLN.slider w) fone) eqn:Hp;
    cbn [negb].
  - destruct (loop_total (LLN.slider w) (LLN.n_values (LLN.checkbox w))
                (seed_bitgen (LLN.seed_of w)) []
                (n_values_admissible _ _ Hp)) as [rng' Hl].
    rewrite Hl. reflexivity.
  - rewrite (loop_rejects _ _ _ _ Hp). reflexivity.
Qed.

(** X5. What the unseeded script shows: the prompt while the button has not
    been pressed; [ValueError] when [p] is not in [0, 1]; and otherwise the
    table whose rows are, for each configured sample size in order, the row
    of the count drawn from the generator seeded with the operating system's
    entropy. *)
Theorem X5_unseeded_script_outcome
  {G : Generator} (w : LLN3.widgets) (os_entropy : N) :
  LLN3.app w os_entropy
  = let p := LLN3.slider w in
    let ns := LLN3.n_values (LLN3.checkbox w) in
    if negb (LLN3.button w) then ret Waiting
    else if negb (fle fzero p && fle p fone) then raise ValueError
    else ret (Results
                (trial_rows p ns
                   (draws p ns (seed_bitgen (Z.of_N os_entropy))))).
Proof.
  cbv zeta. unfold LLN3.app. destruct (LLN3.button w); [| reflexivity].
  cbn [negb default_rng]. unfold ret at 1. cbn [bind].
  rewrite n_values3_n_values, loop3_loop.
  destruct (fle fzero (LLN3.slider w) && fle (LLN3.slider w) fone) eqn:Hp;
    cbn [negb].
  - destruct (loop_total (LLN3.slider w) (LLN.n_values (LLN3.checkbox w))
                (seed_bitgen (Z.of_N os_entropy)) []
                (n_values_admissible _ _ Hp)) as [rng' Hl].
    rewrite Hl. reflexivity.
  - rewrite (loop_rejects _ _ _ _ Hp). reflexivity.
Qed.

(** ** The values a run records *)


Lemma loop_rows_forall {G : Generator} (P : row -> Prop) (p : float)
  (ns : list Z) :
  (forall rng n l rng',
      LLN.iteration p rng n = ret (l, rng') -> P (row_of n l)) ->
  forall rng rows0 rows rng',
    Forall P rows0 ->
    LLN.loop p ns rng rows0 = ret (rows, rng') -> Forall P rows.
Proof.
  intros HP. induction ns as [| n ns IH]; intros rng rows0 rows rng' H0 H.
  - injection H as <- _. exact H0.
  - cbn [LLN.loop] in H.
    apply bind_ret_inv in H. destruct H as [[l g] [Hi H]].
    apply (IH g (rows0 ++ [row_of n l]) rows rng'); [| exact H].
    apply Forall_app. split; [exact H0 |].
    constructor; [| constructor]. exact (HP _ _ _ _ Hi).
Qed.



(** ** Exact results *)

Lemma fdiv_int_same (n : Z) :
  0 < n -> fdiv (int_as_float n) (int_as_float n) = fone.
Proof.
  intros Hn.
  destruct (fdiv_int_rnd n n ltac:(lia)) as [_ Hf]. cbv zeta in Hf.
  rewrite Z.sub_diag in Hf. change (fexp 0) with (-53) in Hf.
  change (- -53) with 53 in Hf.
  rewrite (Z.mul_comm n (2 ^ 53)) in Hf.
  rewrite Z.div_mul, Z.mod_mul, new_location_zero in Hf by lia.
  cbn [loc_code] in Hf. rewrite Hf.
  change (-53 + 1074) with 1021.
  replace ((4 * 2 ^ 53 + 0) * 2 ^ 1021) with (4 * ival fone)
    by (rewrite ival_fone; unfold unit_den, scale;
        change 1074 with (53 + 1021); rewrite (pow2_split 53 1021) by lia;
        lia).
  unfold fone. apply rnd_repr; [reflexivity |].
  fold fone. rewrite ival_fone, four_unit_den.
  apply Z.pow_lt_mono_r; lia.
Qed.

(** X7. Whatever the sample size [n > 0], all successes give the frequency
    [1.0] exactly and no success gives [0.0] exactly: the division rounds
    neither. *)
Theorem X7_extreme_frequencies_exact (n : Z) :
  0 < n ->
  int_truediv n n = ret fone /\ int_truediv 0 n = ret fzero.
Proof.
  intros Hn. split.
  - rewrite int_truediv_nonzero by lia. rewrite fdiv_int_same by exact Hn.
    reflexivity.
  - rewrite int_truediv_nonzero by lia. rewrite fdiv_int_zero by exact Hn.
    reflexivity.
Qed.

Lemma X7_witness :
  int_truediv 10000000 10000000 = ret fone
  /\ int_truediv 0 10000000 = ret fzero.
Proof.
  apply (X7_extreme_frequencies_exact 10000000). lia.
Defined.

Lemma draws_zero {G : Generator} (HG : lawful G) (ns : list Z) :
  Forall (fun n => 0 < n < 2 ^ 63) ns ->
  forall rng, draws fzero ns rng = map (fun _ => 0) ns.
Proof.
  induction 1 as [| n ns Hn Hns IH]; intros rng; cbn [draws map].
  - reflexivity.
  - pose proof (HG rng n fzero eq_refl ltac:(lia)) as Hs.
    apply (in_support_zero n fzero) in Hs; [| reflexivity].
    destruct (random_binomial rng n fzero) as [s g]. cbn [fst] in Hs.
    rewrite Hs, IH. reflexivity.
Qed.

Lemma draws_one {G : Generator} (HG : lawful G) (ns : list Z) :
  Forall (fun n => 0 < n < 2 ^ 63) ns ->
  forall rng, draws fone ns rng = ns.
Proof.
  induction 1 as [| n ns Hn Hns IH]; intros rng; cbn [draws].
  - reflexivity.
  - pose proof (HG rng n fone eq_refl ltac:(lia)) as Hs.
    apply (in_support_one n fone) in Hs; [| reflexivity].
    destruct (random_binomial rng n fone) as [s g]. cbn [fst] in Hs.
    rewrite Hs, IH. reflexivity.
Qed.

Lemma trial_rows_zero (ns : list Z) :
  Forall (fun n => 0 < n < 2 ^ 63) ns ->
  trial_rows fzero ns (map (fun _ => 0) ns)
  = map (fun n => {| row_n := n; row_result := fzero;
                     row_abs_diff := fzero |}) ns.
Proof.
  induction 1 as [| n ns Hn Hns IH]; cbn [trial_rows map].
  - reflexivity.
  - rewrite IH. unfold trial_row. rewrite fdiv_int_zero by lia. reflexivity.
Qed.

Lemma trial_rows_one (ns : list Z) :
  Forall (fun n => 0 < n < 2 ^ 63) ns ->
  trial_rows fone ns ns
  = map (fun n => {| row_n := n; row_result := fone;
                     row_abs_diff := fzero |}) ns.
Proof.
  induction 1 as [| n ns Hn Hns IH]; cbn [trial_rows map].
  - reflexivity.
  - rewrite IH. unfold trial_row. rewrite fdiv_int_same by lia. reflexivity.
Qed.

(** X8. Under the sampler's contract the degenerate probabilities give
    constant tables: with [p = 0.0] every configured sample size gets the row
    [(n, 0.0, 0.0)], and with [p = 1.0] the row [(n, 1.0, 0.0)]. *)
Theorem X8_degenerate_tables
  {G : Generator} (HG : lawful G) (include_big_n : bool) (rng : bitgen) :
  (exists rng',
      LLN.loop fzero (LLN.n_values include_big_n) rng []
      = ret (map (fun n => {| row_n := n; row_result := fzero;
                              row_abs_diff := fzero |})
                 (LLN.n_values include_big_n), rng'))
  /\ (exists rng',
         LLN.loop fone (LLN.n_values include_big_n) rng []
         = ret (map (fun n => {| row_n := n; row_result := fone;
                                 row_abs_diff := fzero |})
                    (LLN.n_values include_big_n), rng')).
Proof.
  pose proof (n_values_positive include_big_n) as Hpos.
  split.
  - destruct (loop_total fzero (LLN.n_values include_big_n) rng []
                (n_values_admissible fzero include_big_n eq_refl))
      as [rng' Hl].
    exists rng'. rewrite Hl. cbn [app].
    rewrite (draws_zero HG _ Hpos), (trial_rows_zero _ Hpos). reflexivity.
  - destruct (loop_total fone (LLN.n_values include_big_n) rng []
                (n_values_admissible fone include_big_n eq_refl))
      as [rng' Hl].
    exists rng'. rewrite Hl. cbn [app].
    rewrite (draws_one HG _ Hpos), (trial_rows_one _ Hpos). reflexivity.
Qed.

Lemma X8_witness :
  (exists rng',
      LLN.loop (G := Lcg.generator) fzero (LLN.n_values false)
        (seed_bitgen 42) []
      = ret (map (fun n => {| row_n := n; row_result := fzero;
                              row_abs_diff := fzero |})
                 (LLN.n_values false), rng'))
  /\ (exists rng',
         LLN.loop (G := Lcg.generator) fone (LLN.n_values false)
           (seed_bitgen 42) []
         = ret (map (fun n => {| row_n := n; row_result := fone;
                                 row_abs_diff := fzero |})
                    (LLN.n_values false), rng')).
Proof.
  exact (X8_degenerate_tables
           (G := Lcg.generator) Lcg_lawful false (seed_bitgen 42)).
Defined.

Lemma feq_ival (a b : float) :
  nonneg a = true -> nonneg b = true -> feq a b = (ival a =? ival b).
Proof.
  intros Ha Hb. unfold feq, SFeqb.
  rewrite (SFcompare_ival a b Ha Hb).
  destruct (Z.compare_spec (ival a) (ival b)) as [E | E | E].
  - rewrite E. symmetry. apply Z.eqb_refl.
  - symmetry. apply Z.eqb_neq. lia.
  - symmetry. apply Z.eqb_neq. lia.
Qed.

Lemma rnd_four : rnd 4 = S754_finite false 1 (-1074).
Proof. reflexivity. Qed.

(** X9. For [p] in [0, 1], [n >= 1] and [0 <= successes <= n], the recorded
    deviation is [0.0] exactly when the frequency [successes / n] equals [p]:
    a difference, however small, never rounds to zero. *)
Theorem X9_zero_deviation_iff_equal (p : float) (n s : Z) :
  valid_p p = true -> 1 <= n -> 0 <= s <= n ->
  let f := fdiv (int_as_float s) (int_as_float n) in
  fabs (fsub f p) = fzero <-> feq f p = true.
Proof.
  intros Hp Hn Hs. cbv zeta.
  destruct (valid_p_nonneg p Hp) as [Hnp Hbp].
  destruct (frequency_unit s n Hs ltac:(lia)) as [Hnf Hbf]. cbv zeta in *.
  set (f := fdiv (int_as_float s) (int_as_float n)) in *.
  rewrite (feq_ival f p Hnf Hnp), Z.eqb_eq.
  rewrite (fsub_abs_rnd f p Hnf Hnp ltac:(lia) ltac:(lia)).
  assert (Hlt : 4 * unit_den < 2 ^ 2099)
    by (rewrite four_unit_den; apply Z.pow_lt_mono_r; lia).
  split.
  - intros E. destruct (Z.eq_dec (ival f) (ival p)) as [Heq | Hne];
      [exact Heq | exfalso].
    pose proof (rnd_mono 4 (4 * Z.abs (ival f - ival p)) ltac:(lia)
                  ltac:(lia)) as Hm.
    rewrite E, rnd_four in Hm. vm_compute in Hm. apply Hm. reflexivity.
  - intros E. rewrite E, Z.sub_diag. reflexivity.
Qed.

Lemma X9_witness :
  fabs (fsub (fdiv (int_as_float 5) (int_as_float 10)) fhalf) = fzero
  <-> feq (fdiv (int_as_float 5) (int_as_float 10)) fhalf = true.
Proof.
  apply (X9_zero_deviation_iff_equal fhalf 10 5); [reflexivity | lia | lia].
Defined.

(** ** The formatted table *)

Lemma rhe_error (a b : Z) :
  0 < b -> 2 * Z.abs (a - Table.round_half_even a b * b) <= b.
Proof.
  intros Hb. unfold Table.round_half_even.
  pose proof (Z.div_mod a b ltac:(lia)) as Hdm.
  pose proof (Z.mod_pos_bound a b Hb) as Hr.
  destruct (Z.compare_spec (2 * (a mod b)) b) as [E | L | L];
    [destruct (Z.even (a / b)) | idtac | idtac]; nia.
Qed.

Lemma rhe_mono (a1 a2 b : Z) :
  0 < b -> a1 <= a2 ->
  Table.round_half_even a1 b <= Table.round_half_even a2 b.
Proof.
  intros Hb H. unfold Table.round_half_even.
  pose proof (Z.div_mod a1 b ltac:(lia)) as Hdm1.
  pose proof (Z.div_mod a2 b ltac:(lia)) as Hdm2.
  pose proof (Z.mod_pos_bound a1 b Hb) as Hr1.
  pose proof (Z.mod_pos_bound a2 b Hb) as Hr2.
  pose proof (Z.div_le_mono a1 a2 b Hb H) as Hq.
  destruct (Z.eq_dec (a1 / b) (a2 / b)) as [E | NE].
  - rewrite E in *.
    destruct (Z.compare_spec (2 * (a1 mod b)) b) as [E1 | L1 | L1];
      destruct (Z.compare_spec (2 * (a2 mod b)) b) as [E2 | L2 | L2];
      destruct (Z.even (a2 / b)); lia.
  - destruct (Z.compare_spec (2 * (a1 mod b)) b) as [E1 | L1 | L1];
      destruct (Z.compare_spec (2 * (a2 mod b)) b) as [E2 | L2 | L2];
      try destruct (Z.even (a1 / b)); try destruct (Z.even (a2 / b)); lia.
Qed.

Lemma rhe_scale (a b c : Z) :
  0 < b -> 0 < c ->
  Table.round_half_even (a * c) (b * c) = Table.round_half_even a b.
Proof.
  intros Hb Hc. unfold Table.round_half_even.
  rewrite Z.div_mul_cancel_r by lia.
  rewrite Z.mul_mod_distr_r by lia.
  replace (2 * (a mod b * c)) with (2 * (a mod b) * c) by lia.
  rewrite mul_compare_r by exact Hc. reflexivity.
Qed.

Lemma rhe_exact (q b : Z) : 0 < b -> Table.round_half_even (q * b) b = q.
Proof.
  intros Hb. unfold Table.round_half_even.
  rewrite Z.div_mul, Z.mod_mul by lia.
  replace (2 * 0 ?= b) with Lt by (symmetry; apply Z.compare_lt_iff; lia).
  reflexivity.
Qed.

Lemma rhe_nonneg (a b : Z) :
  0 < b -> 0 <= a -> 0 <= Table.round_half_even a b.
Proof.
  intros Hb Ha.
  pose proof (rhe_mono 0 a b Hb Ha) as H.
  change 0 with (0 * b) in H at 1. rewrite rhe_exact in H by exact Hb.
  exact H.
Qed.

(** The ten-thousandths of a float, from its value in units of [2^-1074]. *)
Lemma ten_thousandths_ival (s : bool) (m : positive) (e : Z) :
  -1074 <= e ->
  Table.ten_thousandths (S754_finite s m e)
  = Table.round_half_even (10000 * (Zpos m * 2 ^ (e + 1074))) unit_den.
Proof.
  intros He. cbn [Table.ten_thousandths]. unfold unit_den, scale.
  destruct (Z_le_dec 0 e) as [Hpos | Hneg].
  - replace (Z.max e 0) with e by lia. replace (Z.max (- e) 0) with 0 by lia.
    rewrite <- (rhe_scale (Zpos m * 10000 * 2 ^ e) (2 ^ 0) (2 ^ 1074))
      by (apply pow2_pos; lia).
    rewrite (pow2_split e 1074) by lia.
    f_equal; rewrite ?Z.pow_0_r; lia.
  - replace (Z.max e 0) with 0 by lia.
    replace (Z.max (- e) 0) with (- e) by lia.
    rewrite <- (rhe_scale (Zpos m * 10000 * 2 ^ 0) (2 ^ (- e))
                  (2 ^ (e + 1074)))
      by (apply pow2_pos; lia).
    rewrite <- (pow2_split (- e) (e + 1074)) by lia.
    replace (- e + (e + 1074)) with 1074 by lia.
    f_equal. rewrite Z.pow_0_r. lia.
Qed.

Lemma ten_thousandths_nonneg (x : float) :
  nonneg x = true ->
  Table.ten_thousandths x = Table.round_half_even (10000 * ival x) unit_den.
Proof.
  intros Hx. destruct x as [s | s | | s m e]; try discriminate Hx.
  - cbn [Table.ten_thousandths ival]. rewrite Z.mul_0_r.
    change 0 with (0 * unit_den) at 2.
    rewrite rhe_exact by exact unit_den_pos. reflexivity.
  - pose proof (nonneg_finite_inv _ _ _ Hx) as (-> & Hc & _).
    pose proof (canonical_facts m e Hc) as (He & _).
    rewrite ten_thousandths_ival by exact He. reflexivity.
Qed.

(** ** Reading a cell back *)

Section Reading.
Import String Ascii.

Lemma uint_value_acc (d : Decimal.uint) : forall acc : positive,
  Table.uint_value d (Zpos acc) = Zpos (Pos.of_uint_acc d acc).
Proof.
  induction d; intros acc; cbn [Table.uint_value Pos.of_uint_acc];
    try reflexivity;
    match goal with
    | |- Table.uint_value _ ?a = Zpos (Pos.of_uint_acc _ ?b) =>
        replace a with (Zpos b) by lia; apply IHd
    end.
Qed.

Lemma uint_value_of_uint (d : Decimal.uint) :
  Table.uint_value d 0 = Z.of_N (Pos.of_uint d).
Proof.
  induction d; cbn [Table.uint_value Pos.of_uint Z.of_N]; try reflexivity;
    try exact IHd;
    match goal with
    | |- Table.uint_value _ ?a = _ =>
        let k := eval cbv in a in
        change a with k; apply uint_value_acc
    end.
Qed.

Lemma uint_value_to_uint (n : N) :
  Table.uint_value (N.to_uint n) 0 = Z.of_N n.
Proof.
  rewrite uint_value_of_uint.
  change (Pos.of_uint (N.to_uint n)) with (N.of_uint (N.to_uint n)).
  rewrite DecimalN.Unsigned.of_to. reflexivity.
Qed.

Lemma unsigned_uint (d : Decimal.uint) (rest : string) : forall acc,
  Table.unsigned
    (DecimalString.NilEmpty.string_of_uint d ++ String "." rest) acc
  = Table.unsigned (String "." rest) (Table.uint_value d acc).
Proof.
  induction d; intros acc;
    cbn [DecimalString.NilEmpty.string_of_uint append Table.uint_value];
    try reflexivity;
    rewrite <- IHd; cbn [Table.unsigned];
    match goal with
    | |- (if ?b then _ else _) = _ => change b with false
    end; cbv iota;
    match goal with
    | |- match ?x with _ => _ end = _ =>
        let k := eval vm_compute in x in change x with k
    end; cbv iota; f_equal; lia.
Qed.

Lemma digit_value_digit (d : Z) :
  Table.digit_value (Table.digit d) = Some (d mod 10).
Proof.
  unfold Table.digit_value, Table.digit.
  pose proof (Z.mod_pos_bound d 10 ltac:(lia)) as Hd.
  rewrite N_ascii_embedding by lia.
  rewrite N2Z.inj_add, Z2N.id by lia. change (Z.of_N 48) with 48.
  replace (48 <=? 48 + d mod 10) with true by (symmetry; apply Z.leb_le; lia).
  replace (48 + d mod 10 <=? 57) with true by (symmetry; apply Z.leb_le; lia).
  cbn [andb]. f_equal. lia.
Qed.

Lemma digit_not_point (d : Z) : Ascii.eqb (Table.digit d) "."%char = false.
Proof.
  apply Ascii.eqb_neq. intros E.
  pose proof (digit_value_digit d) as H. rewrite E in H. discriminate H.
Qed.

(** Reading what [fixed4] wrote gives the number written. *)
Lemma unsigned_fixed4 (t : Z) :
  0 <= t -> Table.unsigned (Table.fixed4 t) 0 = Some t.
Proof.
  intros Ht. unfold Table.fixed4.
  set (frac := String (Table.digit (t / 1000)) _).
  assert (E : Table.unsigned
                (DecimalString.NilZero.string_of_uint
                   (N.to_uint (Z.to_N (t / 10000))) ++ String "." frac) 0
              = Table.unsigned (String "." frac) (t / 10000)).
  { assert (Hq : 0 <= t / 10000) by (apply Z.div_pos; lia).
    rewrite <- (Z2N.id (t / 10000)) at 2 by exact Hq.
    rewrite <- uint_value_to_uint.
    destruct (N.to_uint (Z.to_N (t / 10000))) eqn:Ed;
      try (cbn [DecimalString.NilZero.string_of_uint];
           rewrite <- Ed; apply unsigned_uint).
    reflexivity. }
  rewrite E. unfold frac.
  cbn [Table.unsigned Table.digits String.length Nat.eqb].
  change (Ascii.eqb "." ".") with true. cbv iota.
  rewrite !digit_value_digit.
  f_equal.
  pose proof (Z.div_mod t 10 ltac:(lia)).
  pose proof (Z.div_mod (t / 10) 10 ltac:(lia)).
  pose proof (Z.div_mod (t / 100) 10 ltac:(lia)).
  pose proof (Z.div_mod (t / 1000) 10 ltac:(lia)).
  replace (t / 10 / 10) with (t / 100) in * by (rewrite Z.div_div by lia; reflexivity).
  replace (t / 100 / 10) with (t / 1000) in * by (rewrite Z.div_div by lia; reflexivity).
  replace (t / 1000 / 10) with (t / 10000) in * by (rewrite Z.div_div by lia; reflexivity).
  lia.
Qed.

Lemma fixed4_unsigned_start (t : Z) :
  exists c s, Table.fixed4 t = String c s /\ Ascii.eqb c "-"%char = false.
Proof.
  unfold Table.fixed4.
  destruct (N.to_uint (Z.to_N (t / 10000)));
    cbn [DecimalString.NilZero.string_of_uint
           DecimalString.NilEmpty.string_of_uint append];
    eexists; eexists; (split; [reflexivity | reflexivity]).
Qed.

(** What a formatted finite float reads back as. *)
Lemma shown_value_format (x : float) :
  is_finite x = true ->
  Table.shown_value (Table.format_4f x)
  = Some (match x with
          | S754_finite s _ _ => cond_Zopp s (Table.ten_thousandths x)
          | _ => 0
          end).
Proof.
  intros Hf. destruct x as [s | s | | s m e]; try discriminate Hf.
  - destruct s; reflexivity.
  - assert (Ht : 0 <= Table.ten_thousandths (S754_finite s m e)).
    { cbn [Table.ten_thousandths]. apply rhe_nonneg.
      - apply pow2_pos. lia.
      - pose proof (pow2_pos (Z.max e 0) ltac:(lia)). nia. }
    cbn [Table.format_4f]. destruct s; cbn [Table.sign cond_Zopp append].
    + cbn [Table.shown_value]. change (Ascii.eqb "-" "-") with true. cbv iota.
      rewrite (unsigned_fixed4 _ Ht). reflexivity.
    + destruct (fixed4_unsigned_start
                  (Table.ten_thousandths (S754_finite false m e)))
        as (c & s & E & Hc).
      unfold Table.shown_value. rewrite E, Hc, <- E.
      apply unsigned_fixed4. exact Ht.
Qed.

Lemma shown_value_nonneg (x : float) :
  nonneg x = true ->
  Table.shown_value (Table.format_4f x) = Some (Table.ten_thousandths x).
Proof.
  intros Hx. destruct x as [s | s | | s m e]; try discriminate Hx.
  - destruct s; reflexivity.
  - pose proof (nonneg_finite_inv _ _ _ Hx) as (-> & _).
    apply (shown_value_format (S754_finite false m e) eq_refl).
Qed.

End Reading.

(** X10. A finite float is shown as the decimal with four places nearest to
    it: the cell written by ["{:.4f}"] reads back as a signed number [t] of
    ten-thousandths, and [t / 10000] differs from the float's value
    [ival x / 2^1074] by at most half a ten-thousandth, that is
    [2 * |10000 * ival x - t * 2^1074| <= 2^1074]. *)
Theorem X10_format_rounds_to_nearest (x : float) :
  valid x = true -> is_finite x = true ->
  exists t,
    Table.shown_value (Table.format_4f x) = Some t
    /\ 2 * Z.abs (10000 * ival x - t * unit_den) <= unit_den.
Proof.
  intros Hv Hf. pose proof unit_den_pos as Hu.
  eexists. split; [apply shown_value_format; exact Hf |].
  destruct x as [s | s | | s m e]; try discriminate Hf.
  - cbn [ival]. simpl Z.abs. lia.
  - apply valid_finite_iff in Hv. destruct Hv as [Hc _].
    pose proof (canonical_facts m e Hc) as (He & _).
    rewrite ten_thousandths_ival by exact He.
    cbn [ival]. unfold scale.
    pose proof (rhe_error (10000 * (Zpos m * 2 ^ (e + 1074))) unit_den Hu)
      as Herr.
    set (M := Zpos m * 2 ^ (e + 1074)) in *.
    set (T := Table.round_half_even (10000 * M) unit_den) in *.
    destruct s; cbn [cond_Zopp]; [| exact Herr].
    replace (10000 * - M - - T * unit_den)
      with (- (10000 * M - T * unit_den)) by ring.
    rewrite Z.abs_opp. exact Herr.
Qed.

Lemma X10_witness :
  exists t,
    Table.shown_value
      (Table.format_4f (fdiv (int_as_float 7) (int_as_float 10))) = Some t
    /\ 2 * Z.abs (10000 * ival (fdiv (int_as_float 7) (int_as_float 10))
                  - t * unit_den)
       <= unit_den.
Proof.
  apply (X10_format_rounds_to_nearest
           (fdiv (int_as_float 7) (int_as_float 10))); reflexivity.
Defined.

(** X11. Formatting keeps the order: of two non-negative floats with
    [a <= b], both cells read back as numbers, and the number shown for [a]
    is not greater than the number shown for [b]. *)
Theorem X11_format_keeps_order (a b : float) :
  nonneg a = true -> nonneg b = true -> fle a b = true ->
  exists ta tb,
    Table.shown_value (Table.format_4f a) = Some ta
    /\ Table.shown_value (Table.format_4f b) = Some tb
    /\ ta <= tb.
Proof.
  intros Ha Hb H. rewrite (fle_ival a b Ha Hb) in H. apply Z.leb_le in H.
  exists (Table.ten_thousandths a), (Table.ten_thousandths b).
  split; [apply shown_value_nonneg; exact Ha |].
  split; [apply shown_value_nonneg; exact Hb |].
  rewrite (ten_thousandths_nonneg a Ha), (ten_thousandths_nonneg b Hb).
  apply rhe_mono; [exact unit_den_pos | lia].
Qed.

Lemma X11_witness :
  exists ta tb,
    Table.shown_value (Table.format_4f fhalf) = Some ta
    /\ Table.shown_value
         (Table.format_4f (fdiv (int_as_float 7) (int_as_float 10)))
       = Some tb
    /\ ta <= tb.
Proof.
  apply (X11_format_keeps_order
           fhalf (fdiv (int_as_float 7) (int_as_float 10))); reflexivity.
Defined.

Lemma rnd_form (v : Z) :
  0 <= v <= 4 * unit_den ->
  rnd v = S754_zero false \/ exists m e, rnd v = S754_finite false m e.
Proof.
  intros Hv. pose proof (rnd_bound_of_unit v Hv) as Hb.
  destruct (rnd_cases v Hb) as [[_ E] | [(m & _ & _ & E) | [_ E]]].
  - left. exact E.
  - right. exists m, (width v - 1076). exact E.
  - right. exists 4503599627370496%positive, (width v - 1075). exact E.
Qed.

Lemma fixed4_length (t : Z) :
  0 <= t <= 10000 -> String.length (Table.fixed4 t) = 6%nat.
Proof.
  intros Ht. unfold Table.fixed4.
  assert (Hq : t / 10000 = 0 \/ t / 10000 = 1).
  { assert (0 <= t / 10000) by (apply Z.div_pos; lia).
    assert (t / 10000 <= 1) by (apply Z.div_le_upper_bound; lia).
    lia. }
  destruct Hq as [-> | ->]; reflexivity.
Qed.

Lemma shown_rnd (v : Z) :
  0 <= v <= 4 * unit_den ->
  Table.format_4f (rnd v) = Table.fixed4 (Table.ten_thousandths (rnd v))
  /\ String.length (Table.format_4f (rnd v)) = 6%nat
  /\ 0 <= Table.ten_thousandths (rnd v) <= 10000.
Proof.
  intros Hv. pose proof unit_den_pos as Hu.
  destruct (rnd_le_one v Hv) as [Hn Hb].
  assert (Ht : 0 <= Table.ten_thousandths (rnd v) <= 10000).
  { rewrite (ten_thousandths_nonneg _ Hn). split.
    - apply rhe_nonneg; lia.
    - rewrite <- (rhe_exact 10000 unit_den Hu) at 2.
      apply rhe_mono; lia. }
  destruct (rnd_form v Hv) as [E | (m & e & E)].
  - rewrite E. repeat split; try reflexivity; simpl; lia.
  - rewrite E in *. cbn [Table.format_4f Table.sign].
    split; [reflexivity |]. split; [| exact Ht].
    apply fixed4_length. exact Ht.
Qed.

(** X12. Under the sampler's contract and for a probability in [0, 1], every
    row of the table is shown with two six-character cells of the form
    [d.dddd], without a sign, each a number of ten-thousandths between
    [0.0000] and [1.0000]. *)
Theorem X12_table_cells
  {G : Generator} (HG : lawful G) (p : float) (ns : list Z) (rng : bitgen)
  (rows : list row) (rng' : bitgen) :
  valid_p p = true ->
  LLN.loop p ns rng [] = ret (rows, rng') ->
  Forall (fun r =>
            let '(_, shown, shown_diff) := Table.styled r in
            shown = Table.fixed4 (Table.ten_thousandths (row_result r))
            /\ shown_diff
               = Table.fixed4 (Table.ten_thousandths (row_abs_diff r))
            /\ String.length shown = 6%nat
            /\ String.length shown_diff = 6%nat
            /\ 0 <= Table.ten_thousandths (row_result r) <= 10000
            /\ 0 <= Table.ten_thousandths (row_abs_diff r) <= 10000) rows.
Proof.
  intros Hp H.
  apply (loop_rows_forall _ p ns) with (rng := rng) (rows0 := [])
                                       (rng' := rng');
    [| constructor | exact H].
  intros g n l g' Hi.
  apply iteration_ret_inv in Hi. destruct Hi as (Hb & Ha & Hn & Hr & Hd).
  unfold admissible in Ha. rewrite !andb_true_iff in Ha.
  destruct Ha as [[[Hn0 _] _] _]. apply Z.leb_le in Hn0.
  assert (Hs : 0 <= successes l <= n).
  { apply (in_support_range n p).
    replace (successes l) with (fst (random_binomial g n p))
      by (rewrite Hb; reflexivity).
    apply HG; [exact Hp | exact Hn0]. }
  destruct (valid_p_nonneg p Hp) as [Hnp Hbp].
  destruct (frequency_unit (successes l) n Hs ltac:(lia)) as [Hnf Hbf].
  cbv zeta in Hnf, Hbf.
  destruct (fdiv_int_unit (successes l) n Hs ltac:(lia)) as (v & Hv & Ev).
  unfold Table.styled, row_of. cbn [row_n row_result row_abs_diff].
  rewrite Hd, Hr.
  rewrite (fsub_abs_rnd _ p Hnf Hnp ltac:(lia) ltac:(lia)).
  rewrite Ev in *.
  destruct (shown_rnd v Hv) as (E1 & L1 & T1).
  destruct (shown_rnd (4 * Z.abs (ival (rnd v) - ival p)) ltac:(lia))
    as (E2 & L2 & T2).
  repeat split; assumption || lia.
Qed.

Lemma X12_witness :
  Forall (fun r =>
            let '(_, shown, shown_diff) := Table.styled r in
            shown = Table.fixed4 (Table.ten_thousandths (row_result r))
            /\ shown_diff
               = Table.fixed4 (Table.ten_thousandths (row_abs_diff r))
            /\ String.length shown = 6%nat
            /\ String.length shown_diff = 6%nat
            /\ 0 <= Table.ten_thousandths (row_result r) <= 10000
            /\ 0 <= Table.ten_thousandths (row_abs_diff r) <= 10000)
         [trial_row fhalf 10 7; trial_row fhalf 50 29].
Proof.
  apply (X12_table_cells
           (G := Lcg.generator) Lcg_lawful fhalf [10; 50] 42 _
           4897482736489597014).
  - reflexivity.
  - vm_compute. reflexivity.
Defined.

(** ** The quotient on the finest grid *)

Lemma shr_1_spec (m : Z) (r s : bool) :
  0 <= m ->
  shr_1 {| shr_m := m; shr_r := r; shr_s := s |}
  = {| shr_m := m / 2; shr_r := Z.odd m; shr_s := r || s |}.
Proof.
  intros Hm. destruct m as [| [q | q |] | q]; try lia; cbn [shr_1].
  - reflexivity.
  - f_equal.
    + rewrite Pos2Z.inj_xI. apply (Z.div_unique _ _ _ 1); lia.
  - f_equal.
    + rewrite Pos2Z.inj_xO. apply (Z.div_unique _ _ _ 0); lia.
  - reflexivity.
Qed.

Lemma new_location_spec (n r : Z) :
  0 < n -> 0 <= r < n ->
  new_location n r
  = if r =? 0 then loc_Exact else loc_Inexact (2 * r ?= n).
Proof.
  intros Hn Hr. unfold new_location, new_location_even, new_location_odd.
  pose proof (Zmod_even n) as He.
  destruct (Z.even n); destruct (r =? 0); try reflexivity.
  f_equal.
  destruct (Z.compare_spec (2 * r + 1) n) as [E | L | L];
    symmetry; [apply Z.compare_lt_iff | apply Z.compare_lt_iff
               | apply Z.compare_gt_iff];
    Z.div_mod_to_equations; lia.
Qed.

Lemma shr_1_loc (q : Z) (l : location) :
  0 <= q ->
  shr_1 (shr_record_of_loc q l)
  = {| shr_m := q / 2; shr_r := Z.odd q;
       shr_s := negb (loc_code l =? 0) |}.
Proof.
  intros Hq. destruct l as [| [| |]]; cbn [shr_record_of_loc];
    rewrite shr_1_spec by exact Hq; reflexivity.
Qed.

(** Doubling the dividend refines the quotient by one bit; one shift of the
    refined record gives the coarser one back. *)
Lemma refine_record (M n : Z) :
  0 < n -> 0 <= M ->
  shr_1 (shr_record_of_loc ((2 * M) / n) (new_location n ((2 * M) mod n)))
  = shr_record_of_loc (M / n) (new_location n (M mod n)).
Proof.
  intros Hn HM.
  pose proof (Z.div_mod M n ltac:(lia)) as Hdm.
  pose proof (Z.mod_pos_bound M n Hn) as Hr.
  assert (Hq : 0 <= M / n) by (apply Z.div_pos; lia).
  remember (M / n) as q eqn:Hdq. remember (M mod n) as r eqn:Hdr.
  assert (Hcase : (2 * r < n /\ (2 * M) / n = 2 * q /\ (2 * M) mod n = 2 * r)
                  \/ (n <= 2 * r /\ (2 * M) / n = 2 * q + 1
                      /\ (2 * M) mod n = 2 * r - n)).
  { destruct (Z_lt_dec (2 * r) n) as [L | L]; [left | right];
      (split; [lia |]); split; symmetry.
    - apply (Z.div_unique _ _ _ (2 * r)); lia.
    - apply (Z.mod_unique _ _ (2 * q)); lia.
    - apply (Z.div_unique _ _ _ (2 * r - n)); lia.
    - apply (Z.mod_unique _ _ (2 * q + 1)); lia. }
  rewrite (new_location_spec n r Hn Hr).
  destruct Hcase as [(L & E1 & E2) | (L & E1 & E2)]; rewrite E1, E2;
    rewrite shr_1_loc by lia; rewrite new_location_spec by lia.
  - replace (2 * q / 2) with q
      by (apply (Z.div_unique _ _ _ 0); lia).
    replace (Z.odd (2 * q)) with false
      by (symmetry; rewrite Z.odd_mul; reflexivity).
    destruct (Z.eqb_spec r 0) as [E | NE].
    + replace (2 * r =? 0) with true by (symmetry; apply Z.eqb_eq; lia).
      reflexivity.
    + replace (2 * r =? 0) with false by (symmetry; apply Z.eqb_neq; lia).
      replace (2 * r ?= n) with Lt by (symmetry; apply Z.compare_lt_iff; lia).
      destruct (2 * (2 * r) ?= n); reflexivity.
  - replace ((2 * q + 1) / 2) with q
      by (apply (Z.div_unique _ _ _ 1); lia).
    replace (Z.odd (2 * q + 1)) with true
      by (symmetry; rewrite Z.add_comm, Z.odd_add_mul_2; reflexivity).
    replace (r =? 0) with false by (symmetry; apply Z.eqb_neq; lia).
    destruct (Z.eqb_spec (2 * r - n) 0) as [E | NE].
    + replace (2 * r ?= n) with Eq by (symmetry; apply Z.compare_eq_iff; lia).
      reflexivity.
    + replace (2 * r ?= n) with Gt by (symmetry; apply Z.compare_gt_iff; lia).
      destruct (2 * (2 * r - n) ?= n); reflexivity.
Qed.

Lemma Zdigits2_double (q b : Z) :
  0 < q -> 0 <= b <= 1 -> Zdigits2 (2 * q + b) = Zdigits2 q + 1.
Proof.
  intros Hq Hb.
  pose proof (Zdigits2_lower q Hq) as Hlo.
  pose proof (Zdigits2_upper q ltac:(lia)) as Hup.
  assert (Hd : 1 <= Zdigits2 q).
  { rewrite Zdigits2_log2 by lia. pose proof (Z.log2_nonneg q). lia. }
  apply Zdigits2_unique; [lia |].
  replace (Zdigits2 q + 1 - 1) with (1 + (Zdigits2 q - 1)) by lia.
  replace (Zdigits2 q + 1) with (1 + Zdigits2 q) by lia.
  rewrite (pow2_split 1 (Zdigits2 q - 1)), (pow2_split 1 (Zdigits2 q)) by lia.
  change (2 ^ 1) with 2. lia.
Qed.

Lemma round_aux_refine (s : bool) (M n e : Z) :
  0 < n -> 0 < M / n -> e <= fexp (Zdigits2 (M / n) + e) ->
  binary_round_aux prec emax s ((2 * M) / n) (e - 1)
    (new_location n ((2 * M) mod n))
  = binary_round_aux prec emax s (M / n) e (new_location n (M mod n))
  /\ Zdigits2 ((2 * M) / n) = Zdigits2 (M / n) + 1.
Proof.
  intros Hn Hq Hfe.
  assert (HM : 0 <= M).
  { destruct (Z_lt_dec M 0) as [L | L]; [| lia].
    pose proof (Z.div_lt_upper_bound M n 0 Hn ltac:(lia)). lia. }
  pose proof (Z.div_mod M n ltac:(lia)) as Hdm.
  pose proof (Z.mod_pos_bound M n Hn) as Hr.
  assert (Hd : Zdigits2 ((2 * M) / n) = Zdigits2 (M / n) + 1).
  { destruct (Z_lt_dec (2 * (M mod n)) n) as [L | L].
    - replace ((2 * M) / n) with (2 * (M / n) + 0)
        by (rewrite Z.add_0_r;
            apply (Z.div_unique _ _ _ (2 * (M mod n))); lia).
      apply Zdigits2_double; lia.
    - replace ((2 * M) / n) with (2 * (M / n) + 1)
        by (apply (Z.div_unique _ _ _ (2 * (M mod n) - n)); lia).
      apply Zdigits2_double; lia. }
  split; [| exact Hd].
  unfold binary_round_aux.
  assert (Hfirst : shr_fexp prec emax ((2 * M) / n) (e - 1)
                     (new_location n ((2 * M) mod n))
                   = shr_fexp prec emax (M / n) e (new_location n (M mod n))).
  { rewrite !shr_fexp_eq, Hd.
    replace (Zdigits2 (M / n) + 1 + (e - 1)) with (Zdigits2 (M / n) + e)
      by lia.
    set (n0 := fexp (Zdigits2 (M / n) + e) - e).
    replace (fexp (Zdigits2 (M / n) + e) - (e - 1)) with (n0 + 1)
      by (unfold n0; lia).
    assert (Hn0 : 0 <= n0) by (unfold n0; lia).
    rewrite !shr_shrn by lia.
    f_equal; [| lia].
    replace (Z.to_nat (n0 + 1)) with (Z.to_nat n0 + 1)%nat by lia.
    rewrite shrn_add. change (shrn 1 ?x) with (shr_1 x).
    rewrite refine_record by lia. reflexivity. }
  rewrite Hfirst. reflexivity.
Qed.

Lemma round_aux_refine_n (s : bool) (n : Z) (k : nat) : forall (M e : Z),
  0 < n -> 0 < M / n -> e <= fexp (Zdigits2 (M / n) + e) ->
  binary_round_aux prec emax s ((M * 2 ^ Z.of_nat k) / n) (e - Z.of_nat k)
    (new_location n ((M * 2 ^ Z.of_nat k) mod n))
  = binary_round_aux prec emax s (M / n) e (new_location n (M mod n)).
Proof.
  induction k as [| k IH]; intros M e Hn Hq Hfe.
  - cbn [Z.of_nat]. rewrite Z.pow_0_r, Z.mul_1_r, Z.sub_0_r. reflexivity.
  - destruct (round_aux_refine s M n e Hn Hq Hfe) as [E Hd].
    rewrite <- E.
    rewrite Nat2Z.inj_succ, Z.pow_succ_r by lia.
    replace (M * (2 * 2 ^ Z.of_nat k)) with ((2 * M) * 2 ^ Z.of_nat k) by lia.
    replace (e - Z.succ (Z.of_nat k)) with ((e - 1) - Z.of_nat k) by lia.
    apply IH; [exact Hn | |].
    + apply Z.lt_le_trans with (M / n); [exact Hq |].
      apply Z.div_le_mono; [exact Hn |].
      assert (0 <= M).
      { destruct (Z_lt_dec M 0) as [L | L]; [| lia].
        pose proof (Z.div_lt_upper_bound M n 0 Hn ltac:(lia)). lia. }
      lia.
    + rewrite Hd.
      replace (Zdigits2 (M / n) + 1 + (e - 1)) with (Zdigits2 (M / n) + e)
        by lia.
      lia.
Qed.

Lemma div_core_fits (s n : Z) :
  0 < s <= n ->
  let e' := fexp (Zdigits2 s - Zdigits2 n) in
  let q := (s * 2 ^ (- e')) / n in
  -1074 <= e' <= -53
  /\ e' <= fexp (Zdigits2 q + e')
  /\ (q = 0 -> e' = -1074).
Proof.
  intros Hs. cbv zeta.
  pose proof (Zdigits2_mono s n ltac:(lia)) as Hd.
  set (e' := fexp (Zdigits2 s - Zdigits2 n)).
  assert (He : -1074 <= e' <= -53) by (unfold e'; rewrite fexp_eq; lia).
  pose proof (pow2_pos (- e') ltac:(lia)) as Hp.
  split; [exact He |].
  destruct (Z.eq_dec e' (-1074)) as [E | NE].
  - split; [rewrite E, fexp_eq; lia | intros _; exact E].
  - assert (Ee : e' = Zdigits2 s - Zdigits2 n - 53)
      by (unfold e' in *; rewrite fexp_eq in *; lia).
    assert (Hq52 : 2 ^ 52 <= (s * 2 ^ (- e')) / n).
    { apply Z.div_le_lower_bound; [lia |].
      pose proof (Zdigits2_lower s ltac:(lia)) as Hlo.
      pose proof (Zdigits2_upper n ltac:(lia)) as Hup.
      pose proof (Zdigits2_nonneg n) as Hdn.
      assert (Hds : 1 <= Zdigits2 s).
      { rewrite Zdigits2_log2 by lia. pose proof (Z.log2_nonneg s). lia. }
      apply Z.le_trans with (2 ^ 52 * 2 ^ Zdigits2 n); [nia |].
      apply Z.le_trans with (2 ^ (Zdigits2 s - 1) * 2 ^ (- e'));
        [| apply Z.mul_le_mono_nonneg_r; lia].
      rewrite <- !pow2_split by lia.
      apply Z.pow_le_mono_r; lia. }
    split; [| lia].
    assert (Hdq : 53 <= Zdigits2 ((s * 2 ^ (- e')) / n)).
    { destruct (Zdigits2_ge_iff ((s * 2 ^ (- e')) / n) 53 ltac:(lia))
        as [H | H]; [apply H; exact Hq52 | lia]. }
    rewrite fexp_eq. lia.
Qed.

(** [successes / n] rounds the quotient as it sits on the grid of
    [2^-1074]: its integer part there and the place of the remainder. *)
Lemma fdiv_int_fine (s n : Z) :
  0 <= s <= n -> 0 < n ->
  fdiv (int_as_float s) (int_as_float n)
  = rnd (4 * ((s * unit_den) / n)
         + loc_code (new_location n ((s * unit_den) mod n))).
Proof.
  intros Hs Hn. destruct (Z.eq_dec s 0) as [-> | Hne].
  - rewrite fdiv_int_zero by exact Hn.
    rewrite Z.mul_0_l, Z.div_0_l, Z.mod_0_l, new_location_zero by lia.
    reflexivity.
  - pose proof (div_core_eq s n ltac:(lia)) as Hcore.
    pose proof (div_core_fits s n ltac:(lia)) as Hfits.
    cbv zeta in Hcore, Hfits.
    set (e' := fexp (Zdigits2 s - Zdigits2 n)) in *.
    destruct Hfits as (He & Hfe & Hq0).
    set (M := s * 2 ^ (- e')) in *.
    assert (HU : s * unit_den = M * 2 ^ Z.of_nat (Z.to_nat (e' + 1074))).
    { rewrite Z2Nat.id by lia. unfold M, unit_den, scale.
      rewrite <- Z.mul_assoc, <- pow2_split by lia.
      f_equal. f_equal. lia. }
    assert (Eaux : fdiv (int_as_float s) (int_as_float n)
                   = binary_round_aux prec emax false (M / n) e'
                       (new_location n (M mod n))).
    { destruct s as [| ms | ms]; try lia. destruct n as [| mn | mn]; try lia.
      unfold fdiv. cbn [int_as_float SFdiv xorb]. rewrite Hcore.
      reflexivity. }
    assert (Hq : 0 <= M / n).
    { apply Z.div_pos; [| lia].
      pose proof (pow2_pos (- e') ltac:(lia)). unfold M. nia. }
    assert (Efine : fdiv (int_as_float s) (int_as_float n)
                    = binary_round_aux prec emax false ((s * unit_den) / n)
                        (-1074) (new_location n ((s * unit_den) mod n))).
    { rewrite Eaux. destruct (Z.eq_dec (M / n) 0) as [E0 | NE0].
      - specialize (Hq0 E0). rewrite HU, Hq0.
        change (Z.to_nat (-1074 + 1074)) with 0%nat.
        cbn [Z.of_nat]. rewrite Z.pow_0_r, Z.mul_1_r. reflexivity.
      - rewrite HU.
        rewrite <- (round_aux_refine_n false n (Z.to_nat (e' + 1074)) M e')
          by lia.
        rewrite Z2Nat.id by lia. f_equal. lia. }
    rewrite Efine. unfold rnd.
    rewrite round_aux_reduce.
    + change (-1074 + 1074) with 0. rewrite Z.pow_0_r, Z.mul_1_r.
      reflexivity.
    + apply Z.div_pos; [| lia]. pose proof unit_den_pos. nia.
    + lia.
    + rewrite fexp_eq. lia.
Qed.

Lemma fine_bound (s n : Z) :
  0 <= s <= n -> 0 < n ->
  0 <= 4 * ((s * unit_den) / n)
       + loc_code (new_location n ((s * unit_den) mod n))
    <= 4 * unit_den.
Proof.
  intros Hs Hn. pose proof unit_den_pos as Hu.
  destruct (Z.eq_dec s 0) as [-> | Hne].
  - rewrite Z.mul_0_l, Z.div_0_l, Z.mod_0_l, new_location_zero by lia.
    cbn [loc_code]. lia.
  - pose proof (quotient_grid_bound s n (-1074) ltac:(lia) ltac:(lia)) as H.
    cbv zeta in H. change (- -1074) with 1074 in H.
    change (-1074 + 1074) with 0 in H.
    rewrite Z.pow_0_r, Z.mul_1_r in H. exact H.
Qed.

Lemma fine_mono (n s1 s2 : Z) :
  0 < n -> 0 <= s1 <= s2 ->
  4 * ((s1 * unit_den) / n)
  + loc_code (new_location n ((s1 * unit_den) mod n))
  <= 4 * ((s2 * unit_den) / n)
     + loc_code (new_location n ((s2 * unit_den) mod n)).
Proof.
  intros Hn Hs. pose proof unit_den_pos as Hu.
  assert (HM : s1 * unit_den <= s2 * unit_den) by nia.
  pose proof (Z.div_mod (s1 * unit_den) n ltac:(lia)) as Hd1.
  pose proof (Z.div_mod (s2 * unit_den) n ltac:(lia)) as Hd2.
  pose proof (Z.mod_pos_bound (s1 * unit_den) n Hn) as Hr1.
  pose proof (Z.mod_pos_bound (s2 * unit_den) n Hn) as Hr2.
  pose proof (Z.div_le_mono _ _ n Hn HM) as Hq.
  pose proof (loc_code_range (new_location n ((s1 * unit_den) mod n))) as Hc1.
  pose proof (loc_code_range (new_location n ((s2 * unit_den) mod n))) as Hc2.
  destruct (Z.eq_dec ((s1 * unit_den) / n) ((s2 * unit_den) / n))
    as [E | NE]; [| lia].
  rewrite E in *.
  assert (Hr : (s1 * unit_den) mod n <= (s2 * unit_den) mod n) by lia.
  rewrite !new_location_spec by lia.
  destruct (Z.eqb_spec ((s1 * unit_den) mod n) 0) as [E1 | N1];
    destruct (Z.eqb_spec ((s2 * unit_den) mod n) 0) as [E2 | N2];
    cbn [loc_code]; try lia.
  - destruct (2 * ((s2 * unit_den) mod n) ?= n); lia.
  - destruct (Z.compare_spec (2 * ((s1 * unit_den) mod n)) n);
      destruct (Z.compare_spec (2 * ((s2 * unit_den) mod n)) n); lia.
Qed.

(** X13. For a fixed sample size, a larger count never gives a smaller
    recorded frequency: for [0 <= s1 <= s2 <= n] the float [s1 / n] is at
    most the float [s2 / n]. *)
Theorem X13_frequency_monotone (n s1 s2 : Z) :
  0 < n -> 0 <= s1 <= s2 -> s2 <= n ->
  exists f1 f2,
    int_truediv s1 n = ret f1 /\ int_truediv s2 n = ret f2
    /\ fle f1 f2 = true.
Proof.
  intros Hn Hs Hs2.
  exists (fdiv (int_as_float s1) (int_as_float n)),
         (fdiv (int_as_float s2) (int_as_float n)).
  split; [apply int_truediv_nonzero; lia |].
  split; [apply int_truediv_nonzero; lia |].
  rewrite (fdiv_int_fine s1 n) by lia. rewrite (fdiv_int_fine s2 n) by lia.
  pose proof (fine_bound s1 n ltac:(lia) Hn) as Hb1.
  pose proof (fine_bound s2 n ltac:(lia) Hn) as Hb2.
  pose proof (fine_mono n s1 s2 Hn Hs) as Hm.
  destruct (rnd_le_one _ Hb1) as [Hn1 _].
  destruct (rnd_le_one _ Hb2) as [Hn2 _].
  rewrite (fle_ival _ _ Hn1 Hn2). apply Z.leb_le.
  apply rnd_mono; [lia |].
  apply (rnd_bound_of_unit _ Hb2).
Qed.

Lemma X13_witness :
  exists f1 f2,
    int_truediv 3 10 = ret f1 /\ int_truediv 7 10 = ret f2
    /\ fle f1 f2 = true.
Proof.
  apply (X13_frequency_monotone 10 3 7); lia.
Defined.

(** ** Rounding is to nearest *)

Lemma loc_code_remainder (n r : Z) :
  0 < n -> 0 <= r < n ->
  let c := loc_code (new_location n r) in
  (c = 0 /\ r = 0) \/ (c = 1 /\ 0 < r /\ 2 * r < n)
  \/ (c = 2 /\ 2 * r = n) \/ (c = 3 /\ n < 2 * r).
Proof.
  intros Hn Hr. cbv zeta. rewrite (new_location_spec n r Hn Hr).
  destruct (Z.eqb_spec r 0) as [E | NE]; cbn [loc_code]; [lia |].
  destruct (Z.compare_spec (2 * r) n); lia.
Qed.

(** The rounded quotient is within half a unit in the last place of the
    exact one. *)
Lemma fine_error (s n : Z) :
  0 <= s < n ->
  let v := 4 * ((s * unit_den) / n)
           + loc_code (new_location n ((s * unit_den) mod n)) in
  2 * Z.abs (n * rval v - 4 * (s * unit_den)) <= n * 2 ^ width v
  /\ width v <= 1023.
Proof.
  intros Hs. cbv zeta. pose proof unit_den_pos as Hu.
  assert (Hn : 0 < n) by lia.
  pose proof (Z.div_mod (s * unit_den) n ltac:(lia)) as Hdm.
  pose proof (Z.mod_pos_bound (s * unit_den) n Hn) as HR.
  assert (HQ0 : 0 <= (s * unit_den) / n) by (apply Z.div_pos; nia).
  assert (HQ1 : (s * unit_den) / n < unit_den)
    by (apply Z.div_lt_upper_bound; nia).
  pose proof (loc_code_remainder n _ Hn HR) as Hc. cbv zeta in Hc.
  set (Q := (s * unit_den) / n) in *. set (R := (s * unit_den) mod n) in *.
  set (c := loc_code (new_location n R)) in *.
  set (v := 4 * Q + c).
  assert (Hv : 0 <= v < 2 ^ 1076).
  { unfold v. rewrite <- four_unit_den. lia. }
  pose proof (width_ge v) as Hw2.
  assert (Hw : width v <= 1023) by (apply (width_below v 1076); lia).
  split; [| exact Hw].
  pose proof (rne_decision v ltac:(lia)) as Hdec. cbv zeta in Hdec.
  unfold rval. set (N := rne (shrn (Z.to_nat (width v)) (exact v))) in *.
  set (K := 2 ^ (width v - 2)).
  assert (HK : 0 < K) by (apply pow2_pos; lia).
  assert (HP : 2 ^ width v = 4 * K).
  { unfold K. replace (width v) with (2 + (width v - 2)) at 1 by lia.
    rewrite (pow2_split 2 (width v - 2)) by lia. reflexivity. }
  rewrite HP in *.
  pose proof (Z.div_mod v (4 * K) ltac:(lia)) as Hvd.
  pose proof (Z.mod_pos_bound v (4 * K) ltac:(lia)) as Hrho.
  set (m := v / (4 * K)) in *. set (rho := v mod (4 * K)) in *.
  set (g := Q - m * K).
  assert (Hrg : rho = 4 * g + c) by (unfold g, v in *; lia).
  assert (Hg : 0 <= g < K) by lia.
  assert (HKc : K = 1 \/ exists K3, 0 < K3 /\ K = 2 * K3).
  { destruct (Z.eq_dec (width v) 2) as [E | NE].
    - left. unfold K. rewrite E. reflexivity.
    - right. exists (2 ^ (width v - 3)). split; [apply pow2_pos; lia |].
      unfold K. replace (width v - 2) with (1 + (width v - 3)) by lia.
      rewrite (pow2_split 1 (width v - 3)) by lia. reflexivity. }
  destruct Hdec as (Hor & Hdown & Hup).
  assert (Hgoal : (N = m /\ 2 * (n * g + R) <= n * K)
                  \/ (N = m + 1 /\ n * K <= 2 * (n * g + R))).
  { destruct Hor as [EN | EN]; [left | right]; (split; [exact EN |]).
    - assert (Hle : 2 * rho <= 4 * K) by lia.
      destruct HKc as [E1 | (K3 & HK3 & E2)].
      + assert (g = 0) by lia. nia.
      + assert (Hg3 : g <= K3) by lia.
        destruct (Z.eq_dec g K3) as [Eg | Ng]; [| nia].
        assert (c = 0) by lia. assert (R = 0) by lia. nia.
    - assert (Hge : 4 * K <= 2 * rho) by lia.
      destruct HKc as [E1 | (K3 & HK3 & E2)].
      + assert (g = 0) by lia. nia.
      + assert (Hg3 : K3 <= g) by lia. nia. }
  assert (HsU : s * unit_den = n * Q + R) by (unfold Q, R; lia).
  assert (HQ : Q = m * K + g) by (unfold g; lia).
  destruct Hgoal as [[EN Hb] | [EN Hb]]; rewrite EN, HsU, HQ.
  - replace (n * (m * (4 * K)) - 4 * (n * (m * K + g) + R))
      with (- (4 * (n * g + R))) by ring.
    rewrite Z.abs_opp, Z.abs_eq by nia. nia.
  - replace (n * ((m + 1) * (4 * K)) - 4 * (n * (m * K + g) + R))
      with (4 * (n * (K - g) - R)) by ring.
    rewrite Z.abs_eq by nia. nia.
Qed.

(** X14. Whatever the sample size [n >= 1] and the count
    [0 <= successes <= n], the recorded frequency differs from the exact
    rational successes/n by at most [2^-54]: with the frequency
    [ival f / 2^1074], [2^54 * |n * ival f - successes * 2^1074|
    <= n * 2^1074]. *)
Theorem X14_frequency_error_bound (n s : Z) :
  0 < n -> 0 <= s <= n ->
  exists f,
    int_truediv s n = ret f
    /\ 2 ^ 54 * Z.abs (n * ival f - s * unit_den) <= n * unit_den.
Proof.
  intros Hn Hs. pose proof unit_den_pos as Hu.
  exists (fdiv (int_as_float s) (int_as_float n)).
  split; [apply int_truediv_nonzero; lia |].
  destruct (Z.eq_dec s n) as [-> | Hne].
  - rewrite fdiv_int_same by exact Hn. rewrite ival_fone, Z.sub_diag.
    cbn [Z.abs]. nia.
  - rewrite (fdiv_int_fine s n Hs Hn).
    pose proof (fine_bound s n Hs Hn) as Hb.
    destruct (fine_error s n ltac:(lia)) as [He Hw]. cbv zeta in He, Hw.
    set (v := 4 * ((s * unit_den) / n)
              + loc_code (new_location n ((s * unit_den) mod n))) in *.
    pose proof (rnd_ival v (rnd_bound_of_unit v Hb)) as Ev.
    rewrite <- Ev in He.
    pose proof (width_ge v) as Hw2.
    assert (Hpow : 2 ^ width v <= 2 ^ 1023)
      by (apply Z.pow_le_mono_r; lia).
    assert (HU : unit_den = 2 ^ 51 * 2 ^ 1023).
    { unfold unit_den, scale. rewrite <- pow2_split by lia. reflexivity. }
    replace (n * (4 * ival (rnd v)) - 4 * (s * unit_den))
      with (4 * (n * ival (rnd v) - s * unit_den)) in He by ring.
    rewrite Z.abs_mul in He. change (Z.abs 4) with 4 in He.
    pose proof (Z.abs_nonneg (n * ival (rnd v) - s * unit_den)) as Ha.
    set (d := Z.abs (n * ival (rnd v) - s * unit_den)) in *.
    assert (H8 : 8 * d <= n * 2 ^ 1023) by nia.
    rewrite HU. change (2 ^ 54) with (2 ^ 51 * 8). nia.
Qed.

Lemma X14_witness :
  exists f,
    int_truediv 7 10 = ret f
    /\ 2 ^ 54 * Z.abs (10 * ival f - 7 * unit_den) <= 10 * unit_den.
Proof.
  apply (X14_frequency_error_bound 10 7); lia.
Defined.
